(** * pk: project descriptors, discovery, snapshot cache and access tracking

    A shallow embedding of the core of the [pk] tool:

    - package [config]: the [Project] descriptor struct, its accessors,
      [migrateSchema], [LoadProject] and [FindProjects];
    - package [cache]: [IsCacheValid], [LoadFromCache], [SaveToCache],
      [FindProjectsCached], [InvalidateCache], [RebuildCacheAsync], the
      access records and [GetRecentProjects];
    - command [list]: [filterProjects].

    Go structs are records, [map[string]AccessRecord] is a [gmap], Go
    [error] results are a sum type threaded through a small state-and-error
    monad over an explicit model of the operating system. *)

From Stdlib Require Import ZArith Lia Ascii String Permutation Sorted.
From stdpp Require Import gmap strings list sorting.

Open Scope string_scope.

(** ** Package config: the descriptor struct *)

(** [s != ""] on Go strings. *)
Definition nonempty (s : string) : bool := negb (String.eqb s "").

(** [TmuxWindow] represents a window configuration. *)
Module TmuxWindow.
Record t := { Name : string; Command : string; Path : string }.
End TmuxWindow.

(** [[project]] section. *)
Module ProjectInfo.
Record t := { Name : string; ID : string; Status : string; Type_ : string }.
Definition zero : t := {| Name := ""; ID := ""; Status := ""; Type_ := "" |}.
End ProjectInfo.

(** [[tech]] section. *)
Module Tech.
Record t := { Stack : list string; Domain : list string }.
Definition zero : t := {| Stack := []; Domain := [] |}.
End Tech.

(** [[dates]] section. *)
Module Dates.
Record t := { Started : string; Completed : string }.
Definition zero : t := {| Started := ""; Completed := "" |}.
End Dates.

(** [[links]] section; the last two fields are legacy and migrate to
    [[datakai]]. *)
Module Links.
Record t := {
  Repository : string;
  Documentation : string;
  ScriptoriumProject : string;
  ConduitGraph : string
}.
Definition zero : t :=
  {| Repository := ""; Documentation := "";
     ScriptoriumProject := ""; ConduitGraph := "" |}.
End Links.

(** [[notes]] section. *)
Module Notes.
Record t := { Description : string }.
Definition zero : t := {| Description := "" |}.
End Notes.

(** [[tmux]] section. *)
Module Tmux.
Record t := { Layout : string; Windows : list TmuxWindow.t }.
Definition zero : t := {| Layout := ""; Windows := [] |}.
End Tmux.

(** [[context]] section. *)
Module Context.
Record t := {
  AWSProfile : string;
  AzureSubscription : string;
  GCloudProject : string;
  DatabricksProfile : string;
  SnowflakeAccount : string;
  GitIdentity : string
}.
Definition zero : t :=
  {| AWSProfile := ""; AzureSubscription := ""; GCloudProject := "";
     DatabricksProfile := ""; SnowflakeAccount := ""; GitIdentity := "" |}.
End Context.

(** [[consultant]] extension. *)
Module Consultant.
Record t := {
  Ownership : string;
  ClientName : string;
  ClientType : string;
  Partner : string;
  MyRole : string;
  DeliverableType : string;
  LicenseModel : string;
  Billable : bool;
  RateType : string
}.
Definition zero : t :=
  {| Ownership := ""; ClientName := ""; ClientType := ""; Partner := "";
     MyRole := ""; DeliverableType := ""; LicenseModel := "";
     Billable := false; RateType := "" |}.

(** Field assignments [c.F = v]. *)
Definition set_Ownership (v : string) (c : t) : t :=
  {| Ownership := v; ClientName := ClientName c; ClientType := ClientType c;
     Partner := Partner c; MyRole := MyRole c;
     DeliverableType := DeliverableType c; LicenseModel := LicenseModel c;
     Billable := Billable c; RateType := RateType c |}.
Definition set_ClientName (v : string) (c : t) : t :=
  {| Ownership := Ownership c; ClientName := v; ClientType := ClientType c;
     Partner := Partner c; MyRole := MyRole c;
     DeliverableType := DeliverableType c; LicenseModel := LicenseModel c;
     Billable := Billable c; RateType := RateType c |}.
Definition set_ClientType (v : string) (c : t) : t :=
  {| Ownership := Ownership c; ClientName := ClientName c; ClientType := v;
     Partner := Partner c; MyRole := MyRole c;
     DeliverableType := DeliverableType c; LicenseModel := LicenseModel c;
     Billable := Billable c; RateType := RateType c |}.
Definition set_Partner (v : string) (c : t) : t :=
  {| Ownership := Ownership c; ClientName := ClientName c;
     ClientType := ClientType c; Partner := v; MyRole := MyRole c;
     DeliverableType := DeliverableType c; LicenseModel := LicenseModel c;
     Billable := Billable c; RateType := RateType c |}.
Definition set_MyRole (v : string) (c : t) : t :=
  {| Ownership := Ownership c; ClientName := ClientName c;
     ClientType := ClientType c; Partner := Partner c; MyRole := v;
     DeliverableType := DeliverableType c; LicenseModel := LicenseModel c;
     Billable := Billable c; RateType := RateType c |}.
Definition set_LicenseModel (v : string) (c : t) : t :=
  {| Ownership := Ownership c; ClientName := ClientName c;
     ClientType := ClientType c; Partner := Partner c; MyRole := MyRole c;
     DeliverableType := DeliverableType c; LicenseModel := v;
     Billable := Billable c; RateType := RateType c |}.
End Consultant.

(** [[datakai]] extension. *)
Module DataKai.
Record t := {
  Visibility : string;
  ScriptoriumProject : string;
  ConduitGraph : string;
  Protocols : list string;
  DKOSVersion : string;
  ProductCategory : string;
  RevenueModel : string;
  Maturity : string
}.
Definition zero : t :=
  {| Visibility := ""; ScriptoriumProject := ""; ConduitGraph := "";
     Protocols := []; DKOSVersion := ""; ProductCategory := "";
     RevenueModel := ""; Maturity := "" |}.

Definition set_Visibility (v : string) (d : t) : t :=
  {| Visibility := v; ScriptoriumProject := ScriptoriumProject d;
     ConduitGraph := ConduitGraph d; Protocols := Protocols d;
     DKOSVersion := DKOSVersion d; ProductCategory := ProductCategory d;
     RevenueModel := RevenueModel d; Maturity := Maturity d |}.
Definition set_ScriptoriumProject (v : string) (d : t) : t :=
  {| Visibility := Visibility d; ScriptoriumProject := v;
     ConduitGraph := ConduitGraph d; Protocols := Protocols d;
     DKOSVersion := DKOSVersion d; ProductCategory := ProductCategory d;
     RevenueModel := RevenueModel d; Maturity := Maturity d |}.
Definition set_ConduitGraph (v : string) (d : t) : t :=
  {| Visibility := Visibility d; ScriptoriumProject := ScriptoriumProject d;
     ConduitGraph := v; Protocols := Protocols d;
     DKOSVersion := DKOSVersion d; ProductCategory := ProductCategory d;
     RevenueModel := RevenueModel d; Maturity := Maturity d |}.
End DataKai.

(** Legacy [[ownership]] section. *)
Module LegacyOwnership.
Record t := {
  Primary : string;
  Partners : list string;
  LicenseModel : string;
  Visibility : string
}.
Definition zero : t :=
  {| Primary := ""; Partners := []; LicenseModel := ""; Visibility := "" |}.
End LegacyOwnership.

(** Legacy [[client]] section. *)
Module LegacyClient.
Record t := { EndClient : string; Intermediary : string; MyRole : string }.
Definition zero : t := {| EndClient := ""; Intermediary := ""; MyRole := "" |}.
End LegacyClient.

(** [Project] represents a [.project.toml] file. *)
Record Project := {
  Path : string;
  ProjectInfo : ProjectInfo.t;
  Tech : Tech.t;
  Dates : Dates.t;
  Links : Links.t;
  Notes : Notes.t;
  Tmux : Tmux.t;
  Context : Context.t;
  Consultant : Consultant.t;
  DataKai : DataKai.t;
  LegacyOwnership : LegacyOwnership.t;
  LegacyClient : LegacyClient.t;
  migrated : bool
}.

(** The zero value of [Project] ([var project Project]). *)
Definition zeroProject : Project :=
  {| Path := ""; ProjectInfo := ProjectInfo.zero; Tech := Tech.zero;
     Dates := Dates.zero; Links := Links.zero; Notes := Notes.zero;
     Tmux := Tmux.zero; Context := Context.zero;
     Consultant := Consultant.zero; DataKai := DataKai.zero;
     LegacyOwnership := LegacyOwnership.zero;
     LegacyClient := LegacyClient.zero; migrated := false |}.

Definition set_Path (v : string) (p : Project) : Project :=
  {| Path := v; ProjectInfo := ProjectInfo p; Tech := Tech p;
     Dates := Dates p; Links := Links p; Notes := Notes p; Tmux := Tmux p;
     Context := Context p; Consultant := Consultant p; DataKai := DataKai p;
     LegacyOwnership := LegacyOwnership p; LegacyClient := LegacyClient p;
     migrated := migrated p |}.

Definition set_Consultant (v : Consultant.t) (p : Project) : Project :=
  {| Path := Path p; ProjectInfo := ProjectInfo p; Tech := Tech p;
     Dates := Dates p; Links := Links p; Notes := Notes p; Tmux := Tmux p;
     Context := Context p; Consultant := v; DataKai := DataKai p;
     LegacyOwnership := LegacyOwnership p; LegacyClient := LegacyClient p;
     migrated := migrated p |}.

Definition set_DataKai (v : DataKai.t) (p : Project) : Project :=
  {| Path := Path p; ProjectInfo := ProjectInfo p; Tech := Tech p;
     Dates := Dates p; Links := Links p; Notes := Notes p; Tmux := Tmux p;
     Context := Context p; Consultant := Consultant p; DataKai := v;
     LegacyOwnership := LegacyOwnership p; LegacyClient := LegacyClient p;
     migrated := migrated p |}.

Definition set_migrated (v : bool) (p : Project) : Project :=
  {| Path := Path p; ProjectInfo := ProjectInfo p; Tech := Tech p;
     Dates := Dates p; Links := Links p; Notes := Notes p; Tmux := Tmux p;
     Context := Context p; Consultant := Consultant p; DataKai := DataKai p;
     LegacyOwnership := LegacyOwnership p; LegacyClient := LegacyClient p;
     migrated := v |}.

(** [p.Consultant.F = v] and [p.DataKai.F = v]. *)
Definition upd_Consultant (f : Consultant.t -> Consultant.t) (p : Project) :=
  set_Consultant (f (Consultant p)) p.
Definition upd_DataKai (f : DataKai.t -> DataKai.t) (p : Project) :=
  set_DataKai (f (DataKai p)) p.

(** ** Accessors (backward compatibility) *)

Definition GetOwner (p : Project) : string :=
  if nonempty (Consultant.Ownership (Consultant p))
  then Consultant.Ownership (Consultant p)
  else LegacyOwnership.Primary (LegacyOwnership p).

Definition GetLicenseModel (p : Project) : string :=
  if nonempty (Consultant.LicenseModel (Consultant p))
  then Consultant.LicenseModel (Consultant p)
  else LegacyOwnership.LicenseModel (LegacyOwnership p).

Definition GetClientName (p : Project) : string :=
  if nonempty (Consultant.ClientName (Consultant p))
  then Consultant.ClientName (Consultant p)
  else LegacyClient.EndClient (LegacyClient p).

Definition GetPartner (p : Project) : string :=
  if nonempty (Consultant.Partner (Consultant p))
  then Consultant.Partner (Consultant p)
  else match LegacyOwnership.Partners (LegacyOwnership p) with
       | first :: _ => first
       | [] => LegacyClient.Intermediary (LegacyClient p)
       end.

Definition GetMyRole (p : Project) : string :=
  if nonempty (Consultant.MyRole (Consultant p))
  then Consultant.MyRole (Consultant p)
  else LegacyClient.MyRole (LegacyClient p).

Definition GetPartners (p : Project) : list string :=
  if nonempty (Consultant.Partner (Consultant p))
  then [Consultant.Partner (Consultant p)]
  else LegacyOwnership.Partners (LegacyOwnership p).

(** ** migrateSchema: old schema format to new *)

(** The body of [if hasLegacyOwnership { ... }]. *)
Definition migrateOwnership (p : Project) : Project :=
  let lo := LegacyOwnership p in
  let p := upd_Consultant (Consultant.set_Ownership (LegacyOwnership.Primary lo)) p in
  let p := upd_Consultant (Consultant.set_LicenseModel (LegacyOwnership.LicenseModel lo)) p in
  let p := match LegacyOwnership.Partners lo with
           | first :: _ => upd_Consultant (Consultant.set_Partner first) p
           | [] => p
           end in
  if nonempty (LegacyOwnership.Visibility lo)
  then upd_DataKai (DataKai.set_Visibility (LegacyOwnership.Visibility lo)) p
  else p.

(** The body of [if hasLegacyClient { ... }]. *)
Definition migrateClient (p : Project) : Project :=
  let lc := LegacyClient p in
  let p := upd_Consultant (Consultant.set_ClientName (LegacyClient.EndClient lc)) p in
  let p := upd_Consultant (Consultant.set_MyRole (LegacyClient.MyRole lc)) p in
  if nonempty (LegacyClient.Intermediary lc) then
    let p := upd_Consultant (Consultant.set_Partner (LegacyClient.Intermediary lc)) p in
    upd_Consultant (Consultant.set_ClientType "partner") p
  else if nonempty (LegacyClient.EndClient lc) then
    upd_Consultant (Consultant.set_ClientType "direct") p
  else p.

(** Relocation of the two DataKai-specific links. *)
Definition migrateLinks (p : Project) : Project :=
  let p := if nonempty (Links.ScriptoriumProject (Links p))
           then set_migrated true
                  (upd_DataKai (DataKai.set_ScriptoriumProject
                                  (Links.ScriptoriumProject (Links p))) p)
           else p in
  if nonempty (Links.ConduitGraph (Links p))
  then set_migrated true
         (upd_DataKai (DataKai.set_ConduitGraph (Links.ConduitGraph (Links p))) p)
  else p.

Definition migrateSchema (p : Project) : Project :=
  let hasLegacyOwnership := nonempty (LegacyOwnership.Primary (LegacyOwnership p)) in
  let hasLegacyClient :=
    nonempty (LegacyClient.EndClient (LegacyClient p))
    || nonempty (LegacyClient.Intermediary (LegacyClient p)) in
  if negb hasLegacyOwnership && negb hasLegacyClient
     && (String.eqb (Links.ScriptoriumProject (Links p)) ""
         && String.eqb (Links.ConduitGraph (Links p)) "")
  then p (* no migration needed *)
  else
    let p := set_migrated true p in
    let p := if hasLegacyOwnership then migrateOwnership p else p in
    let p := if hasLegacyClient then migrateClient p else p in
    migrateLinks p.

(** ** Errors and results *)

Inductive errno := ENOENT | EACCES | EISDIR | ENOTDIR | EIO.

(** Go [error] values that occur in the two packages. *)
Inductive error :=
| PathError (op path : string) (e : errno)  (* *fs.PathError from package os *)
| DecodeError (msg : string)                (* toml / json decoding failure *)
| HomeDirError                              (* os.UserHomeDir: $HOME is not defined *)
| SkipDir                                   (* filepath.SkipDir *)
| SkipAll.                                  (* filepath.SkipAll *)

(** [(T, error)] return values: either a value with a nil error, or an
    error (the value is then nil / zero and is not represented). *)
Inductive result (A : Type) :=
| Ok (a : A)
| Err (e : error).
Arguments Ok {A} a.
Arguments Err {A} e.

(** Sequencing with early return on error ([if err != nil { return nil, err }]),
    written [x ← r; k]. *)
#[global] Instance result_bind : MBind result := fun A B k r =>
  match r with
  | Ok a => k a
  | Err e => Err e
  end.

(** [os.IsNotExist]. *)
Definition os_IsNotExist (err : option error) : bool :=
  match err with
  | Some (PathError _ _ ENOENT) => true
  | _ => false
  end.

(** ** The operating system as seen by the two packages *)

(** Outcome of [os.ReadFile] on a regular file. *)
Inductive readable :=
| Content (data : string)
| Unreadable (e : errno).

(** A file tree below a discovery root. [Dir] lists its children in the
    order [readDirNames] returns them; [DirUnreadable] is a directory on
    which [readDirNames] fails; [Broken] is a name on which [os.Lstat]
    fails. *)
#[local] Unset Elimination Schemes.
Inductive Entry :=
| File (name : string) (data : readable)
| Dir (name : string) (children : list Entry)
| DirUnreadable (name : string) (e : errno)
| Broken (name : string) (e : errno).
#[local] Set Elimination Schemes.

(** [info.Name()]. *)
Definition entryName (e : Entry) : string :=
  match e with
  | File n _ | Dir n _ | DirUnreadable n _ | Broken n _ => n
  end.

(** [info.IsDir()]. *)
Definition entryIsDir (e : Entry) : bool :=
  match e with
  | Dir _ _ | DirUnreadable _ _ => true
  | File _ _ | Broken _ _ => false
  end.

(** What [os.ReadFile path] answers when [path] names entry [e]. *)
Definition readEntry (path : string) (e : Entry) : result string :=
  match e with
  | File _ (Content data) => Ok data
  | File _ (Unreadable en) => Err (PathError "open" path en)
  | Dir _ _ | DirUnreadable _ _ => Err (PathError "read" path EISDIR)
  | Broken _ en => Err (PathError "open" path en)
  end.

(** A regular file of the cache directory. *)
Record FileNode := { ModTime : Z; data : readable }.

(** [now] is the wall clock in nanoseconds; [home] is [$HOME] ([None] when
    [os.UserHomeDir] fails); [mkdir_errno] and [write_errno] are the
    failures, if any, of [os.MkdirAll] and [os.WriteFile] in the cache
    directory; [files] are the regular files of the cache directory by full
    path; [trees] are the file trees found at the discovery roots. *)
Record World := {
  now : Z;
  home : option string;
  mkdir_errno : option errno;
  write_errno : option errno;
  files : gmap string FileNode;
  trees : gmap string Entry
}.

Definition set_files (fs : gmap string FileNode) (w : World) : World :=
  {| now := now w; home := home w; mkdir_errno := mkdir_errno w;
     write_errno := write_errno w; files := fs; trees := trees w |}.

Definition set_now (t : Z) (w : World) : World :=
  {| now := t; home := home w; mkdir_errno := mkdir_errno w;
     write_errno := write_errno w; files := files w; trees := trees w |}.

(** [filepath.Join] of two clean, non-empty elements. *)
Definition filepath_Join (dir name : string) : string := dir ++ "/" ++ name.

(** [os.Lstat root]: the entry at a discovery root; a root with no tree does
    not exist. *)
Definition os_Lstat (w : World) (root : string) : Entry :=
  default (Broken root ENOENT) (trees w !! root).

(** The error of [os.Stat root], if any. *)
Definition os_Stat_err (w : World) (root : string) : option error :=
  match os_Lstat w root with
  | Broken _ en => Some (PathError "stat" root en)
  | _ => None
  end.

(** ** filepath.Walk *)

(** A [filepath.WalkFunc] closing over mutable state [S]. The callback
    receives the entry found at [path], which stands for [info] and answers
    the callback's reads of [path]. *)
Definition WalkFunc (S : Type) : Type :=
  string -> Entry -> option error -> S -> S * option error.

(** [walk] of package [filepath], with the [lstat] of the visited name
    folded in: a [Broken] entry is reported to the callback with the
    [lstat] error. *)
Fixpoint walk {S : Type} (fn : WalkFunc S) (path : string) (e : Entry) (s : S)
  {struct e} : S * option error :=
  match e with
  | File _ _ => fn path e None s
  | Broken _ en => fn path e (Some (PathError "lstat" path en)) s
  | DirUnreadable _ en => fn path e (Some (PathError "open" path en)) s
  | Dir _ children =>
      let '(s1, err1) := fn path e None s in
      match err1 with
      | Some _ => (s1, err1)
      | None =>
          (fix loop (cs : list Entry) (s : S) {struct cs} : S * option error :=
             match cs with
             | [] => (s, None)
             | c :: cs' =>
                 let '(s2, err) := walk fn (filepath_Join path (entryName c)) c s in
                 match err with
                 | None => loop cs' s2
                 | Some SkipDir =>
                     match c with
                     | File _ _ => (s2, err)
                     | _ => loop cs' s2
                     end
                 | Some _ => (s2, err)
                 end
             end) children s1
      end
  end.

(** [filepath.Walk]. *)
Definition Walk {S : Type} (w : World) (root : string) (fn : WalkFunc S) (s : S)
  : S * option error :=
  let '(s', err) := walk fn root (os_Lstat w root) s in
  match err with
  | Some SkipDir | Some SkipAll => (s', None)
  | _ => (s', err)
  end.

(** [filepath.Dir] of a clean path: everything before the last separator. *)
Fixpoint dirOf (acc cur : string) (rest : string) : string :=
  match rest with
  | EmptyString => acc
  | String c rest' =>
      if Ascii.eqb c "/"%char
      then dirOf (acc ++ cur) "/" rest'
      else dirOf acc (cur ++ String c EmptyString) rest'
  end.

Definition filepath_Dir (path : string) : string :=
  match dirOf "" "" path with
  | EmptyString =>
      match path with
      | String "/"%char _ => "/"
      | _ => "."
      end
  | d => d
  end.

(** ** Time *)

(** A [time.Time] read from the wall clock or from a file is an instant in
    nanoseconds; a [time.Duration] is a signed 64-bit count of nanoseconds. *)
Definition minDuration : Z := - 2 ^ 63.
Definition maxDuration : Z := 2 ^ 63 - 1.

(** [t.Sub(u)]: the difference, saturated to the range of [Duration]. *)
Definition time_Sub (t u : Z) : Z :=
  let d := (t - u)%Z in
  if (d <? minDuration)%Z then minDuration
  else if (maxDuration <? d)%Z then maxDuration
  else d.

(** [time.Since(t)]. *)
Definition time_Since (w : World) (t : Z) : Z := time_Sub (now w) t.

(** [t.After(u)]. *)
Definition time_After (t u : Z) : bool := (u <? t)%Z.

Definition Minute : Z := 60 * 1000000000.

(** Refresh every 5 minutes. *)
Definition CacheMaxAge : Z := 5 * Minute.

(** ** Package os on the cache directory *)

Definition os_UserHomeDir (w : World) : result string :=
  match home w with
  | Some h => Ok h
  | None => Err HomeDirError
  end.

Definition os_MkdirAll (w : World) (dir : string) : option error :=
  PathError "mkdir" dir <$> mkdir_errno w.

Definition os_Stat (w : World) (path : string) : result FileNode :=
  match files w !! path with
  | Some info => Ok info
  | None => Err (PathError "stat" path ENOENT)
  end.

Definition os_ReadFile (w : World) (path : string) : result string :=
  match files w !! path with
  | Some {| data := Content d |} => Ok d
  | Some {| data := Unreadable en |} => Err (PathError "open" path en)
  | None => Err (PathError "open" path ENOENT)
  end.

(** [os.WriteFile]: on success the file holds [d] and is stamped with the
    current time. *)
Definition os_WriteFile (path d : string) (w : World) : option error * World :=
  match write_errno w with
  | Some en => (Some (PathError "open" path en), w)
  | None =>
      (None, set_files (<[path := {| ModTime := now w; data := Content d |}]> (files w)) w)
  end.

Definition os_Remove (path : string) (w : World) : option error * World :=
  match files w !! path with
  | None => (Some (PathError "remove" path ENOENT), w)
  | Some _ =>
      match write_errno w with
      | Some en => (Some (PathError "remove" path en), w)
      | None => (None, set_files (delete path (files w)) w)
      end
  end.

(** [AccessRecord] tracks when a project was last accessed. *)
Record AccessRecord := {
  ProjectID : string;
  ProjectPath : string;
  LastAccessed : Z
}.

(** Work detached with [go func() { ... }()]; it runs, if at all, after the
    spawning call has returned. *)
Inductive goroutine :=
| GoSaveToCache (projects : list Project)
| GoRebuildCache (rootDirs : list string).

(** The comparison closure handed to [sort.Slice] by [GetRecentProjects],
    on the elements at the two indices. *)
Definition recentLess (records : gmap string AccessRecord) (pi pj : Project) : bool :=
  match records !! ProjectInfo.ID (ProjectInfo pi),
        records !! ProjectInfo.ID (ProjectInfo pj) with
  | None, None => false
  | None, Some _ => false
  | Some _, None => true
  | Some accessI, Some accessJ =>
      time_After (LastAccessed accessI) (LastAccessed accessJ)
  end.

(** [insertionSortLessFunc] of package [sort], the procedure [sort.Slice]
    runs on slices of at most 12 elements: each element is swapped towards
    the front while it is less than its left neighbour. [insertLeft] works on
    the already sorted prefix in reverse order. *)
Fixpoint insertLeft {A} (less : A -> A -> bool) (x : A) (revPrefix : list A) : list A :=
  match revPrefix with
  | [] => [x]
  | y :: ys => if less x y then y :: insertLeft less x ys else x :: y :: ys
  end.

Definition insertionSort {A} (less : A -> A -> bool) (l : list A) : list A :=
  rev (fold_left (fun revPrefix x => insertLeft less x revPrefix) l []).

Section Packages.

(** Library functions the packages call. [toml_Decode data p] decodes file
    contents into the struct [p]; the [json] functions are [MarshalIndent]
    and [Unmarshal] at the two types used; [sort_Slice less s] is
    [sort.Slice] with the comparison taken on elements. *)
Variable toml_Decode : string -> Project -> result Project.
Variable json_Marshal : list Project -> result string.
Variable json_Unmarshal : string -> result (list Project).
Variable json_MarshalRecords : gmap string AccessRecord -> result string.
Variable json_UnmarshalRecords : string -> result (gmap string AccessRecord).
Variable sort_Slice : (Project -> Project -> bool) -> list Project -> list Project.

(** *** Package config *)

(** [LoadProject] reads a [.project.toml] file; [file] is what
    [os.ReadFile path] answers inside [toml.DecodeFile]. *)
Definition LoadProject (path : string) (file : result string) : result Project :=
  let project := set_Path (filepath_Dir path) zeroProject in
  data ← file;
  project ← toml_Decode data project;
  Ok (migrateSchema project).

(** The closure passed to [filepath.Walk]; it appends to the captured
    slice [projects]. *)
Definition findProjectsFn : WalkFunc (list Project) :=
  fun path info err projects =>
    match err with
    | Some e => (projects, Some e)
    | None =>
        if String.eqb (entryName info) ".project.toml" then
          match LoadProject path (readEntry path info) with
          | Err _ => (projects, None) (* skip malformed files *)
          | Ok project => ((projects ++ [project])%list, None)
          end
        else (projects, None)
    end.

(** The [for _, root := range rootDirs] loop, from the slice built so far. *)
Fixpoint FindProjects_loop (w : World) (rootDirs : list string)
    (projects : list Project) : result (list Project) :=
  match rootDirs with
  | [] => Ok projects
  | root :: rest =>
      if os_IsNotExist (os_Stat_err w root)
      then FindProjects_loop w rest projects
      else
        let '(projects', err) := Walk w root findProjectsFn projects in
        match err with
        | Some e => Err e
        | None => FindProjects_loop w rest projects'
        end
  end.

(** [FindProjects] recursively finds all [.project.toml] files. *)
Definition FindProjects (w : World) (rootDirs : list string) : result (list Project) :=
  FindProjects_loop w rootDirs [].

(** *** Package cache: the snapshot *)

Definition GetCacheFile (w : World) : result string :=
  homeDir ← os_UserHomeDir w;
  let cacheDir := filepath_Join (filepath_Join homeDir ".cache") "pk" in
  match os_MkdirAll w cacheDir with
  | Some e => Err e
  | None => Ok (filepath_Join cacheDir "projects.json")
  end.

(** [IsCacheValid] checks if cache exists and is recent. *)
Definition IsCacheValid (w : World) : bool :=
  match GetCacheFile w with
  | Err _ => false
  | Ok cacheFile =>
      match os_Stat w cacheFile with
      | Err _ => false
      | Ok info =>
          let age := time_Since w (ModTime info) in
          (age <? CacheMaxAge)%Z
      end
  end.

Definition LoadFromCache (w : World) : result (list Project) :=
  cacheFile ← GetCacheFile w;
  data ← os_ReadFile w cacheFile;
  projects ← json_Unmarshal data;
  Ok projects.

Definition SaveToCache (projects : list Project) (w : World) : option error * World :=
  match GetCacheFile w with
  | Err e => (Some e, w)
  | Ok cacheFile =>
      match json_Marshal projects with
      | Err e => (Some e, w)
      | Ok data => os_WriteFile cacheFile data w
      end
  end.

(** [FindProjectsCached] returns projects from cache if valid, otherwise
    scans and caches. The second component lists the goroutines started. *)
Definition FindProjectsCached (w : World) (rootDirs : list string)
  : result (list Project) * list goroutine :=
  let scan :=
    match FindProjects w rootDirs with
    | Err e => (Err e, [])
    | Ok projects => (Ok projects, [GoSaveToCache projects])
    end in
  if IsCacheValid w then
    match LoadFromCache w with
    | Ok projects => (Ok projects, [])
    | Err _ => scan (* cache read failed, fall through to scan *)
    end
  else scan.

Definition InvalidateCache (w : World) : option error * World :=
  match GetCacheFile w with
  | Err e => (Some e, w)
  | Ok cacheFile =>
      let '(err, w') := os_Remove cacheFile w in
      if bool_decide (is_Some err) && negb (os_IsNotExist err)
      then (err, w')
      else (None, w')
  end.

Definition RebuildCacheAsync (rootDirs : list string) : list goroutine :=
  [GoRebuildCache rootDirs].

(** The effect of a goroutine that runs to completion. *)
Definition runGoroutine (g : goroutine) (w : World) : World :=
  match g with
  | GoSaveToCache projects => snd (SaveToCache projects w)
  | GoRebuildCache rootDirs =>
      let w1 := snd (InvalidateCache w) in
      match FindProjects w1 rootDirs with
      | Ok projects => snd (SaveToCache projects w1)
      | Err _ => w1
      end
  end.

(** *** Package cache: access tracking *)

Definition GetAccessFile (w : World) : result string :=
  homeDir ← os_UserHomeDir w;
  let cacheDir := filepath_Join (filepath_Join homeDir ".cache") "pk" in
  match os_MkdirAll w cacheDir with
  | Some e => Err e
  | None => Ok (filepath_Join cacheDir "access.json")
  end.

Definition LoadAccessRecords (w : World) : result (gmap string AccessRecord) :=
  accessFile ← GetAccessFile w;
  match os_ReadFile w accessFile with
  | Err e => if os_IsNotExist (Some e) then Ok ∅ else Err e
  | Ok data => json_UnmarshalRecords data
  end.

Definition SaveAccessRecords (records : gmap string AccessRecord) (w : World)
  : option error * World :=
  match GetAccessFile w with
  | Err e => (Some e, w)
  | Ok accessFile =>
      match json_MarshalRecords records with
      | Err e => (Some e, w)
      | Ok data => os_WriteFile accessFile data w
      end
  end.

(** [RecordAccess] marks a project as accessed now. *)
Definition RecordAccess (projectID projectPath : string) (w : World)
  : option error * World :=
  match LoadAccessRecords w with
  | Err e => (Some e, w)
  | Ok records =>
      SaveAccessRecords
        (<[projectID := {| ProjectID := projectID; ProjectPath := projectPath;
                           LastAccessed := now w |}]> records) w
  end.

(** [projects[:limit]] under the guard [limit > 0 && limit < len(projects)]. *)
Definition applyLimit (limit : Z) (projects : list Project) : list Project :=
  if (0 <? limit)%Z && (limit <? Z.of_nat (length projects))%Z
  then take (Z.to_nat limit) projects
  else projects.

(** [GetRecentProjects] returns projects sorted by access time (most
    recent first). *)
Definition GetRecentProjects (limit : Z) (w : World)
  : result (list Project) * list goroutine :=
  match LoadAccessRecords w with
  | Err e => (Err e, [])
  | Ok records =>
      match os_UserHomeDir w with
      | Err e => (Err e, [])
      | Ok homeDir =>
          match FindProjectsCached w [filepath_Join homeDir "projects";
                                      filepath_Join homeDir "scratch"] with
          | (Err e, gs) => (Err e, gs)
          | (Ok projects, gs) =>
              let projects := sort_Slice (recentLess records) projects in
              (Ok (applyLimit limit projects), gs)
          end
      end
  end.

End Packages.

(** ** Discovery, read off the file tree *)

(** Induction on file trees, with the hypothesis on every child of a
    directory. *)
Fixpoint Entry_ind (P : Entry -> Prop)
    (HFile : forall n d, P (File n d))
    (HDir : forall n cs, Forall P cs -> P (Dir n cs))
    (HDirUnreadable : forall n en, P (DirUnreadable n en))
    (HBroken : forall n en, P (Broken n en))
    (e : Entry) {struct e} : P e :=
  match e with
  | File n d => HFile n d
  | Dir n cs =>
      HDir n cs
        ((fix all (cs : list Entry) : Forall P cs :=
            match cs with
            | [] => @Lists.List.Forall_nil _ P
            | c :: cs' =>
                @Lists.List.Forall_cons _ P c cs'
                  (Entry_ind P HFile HDir HDirUnreadable HBroken c) (all cs')
            end) cs)
  | DirUnreadable n en => HDirUnreadable n en
  | Broken n en => HBroken n en
  end.

(** Every entry of a tree with its full path, a directory before its
    children and the children in directory order. *)
Fixpoint entries (path : string) (e : Entry) {struct e} : list (string * Entry) :=
  (path, e) ::
  match e with
  | Dir _ children =>
      (fix below (cs : list Entry) : list (string * Entry) :=
         match cs with
         | [] => []
         | c :: cs' => (entries (filepath_Join path (entryName c)) c ++ below cs')%list
         end) children
  | _ => []
  end.

(** The error an entry reports to a walk: a failed [lstat] or a failed
    directory read. Regular files and readable directories report none. *)
Definition ioError (pe : string * Entry) : option error :=
  match pe.2 with
  | Broken _ en => Some (PathError "lstat" pe.1 en)
  | DirUnreadable _ en => Some (PathError "open" pe.1 en)
  | File _ _ | Dir _ _ => None
  end.

(** An entry carrying the recognized descriptor file name. *)
Definition isDescriptor (pe : string * Entry) : bool :=
  String.eqb (entryName pe.2) ".project.toml".

(** A discovery root that [FindProjects] passes over: [os.Stat] reports that
    it does not exist. *)
Definition rootMissing (w : World) (root : string) : bool :=
  os_IsNotExist (os_Stat_err w root).

(** The entries a scan of [root] can meet. *)
Definition rootEntries (w : World) (root : string) : list (string * Entry) :=
  if rootMissing w root then [] else entries root (os_Lstat w root).

(** The first I/O error a scan of [root] meets, if any. *)
Definition rootError (w : World) (root : string) : option error :=
  head (omap ioError (rootEntries w root)).

Section Discovery.

Variable toml_Decode : string -> Project -> result Project.

(** The entity of a descriptor, when it loads. *)
Definition loadDescriptor (pe : string * Entry) : option Project :=
  match LoadProject toml_Decode pe.1 (readEntry pe.1 pe.2) with
  | Ok project => Some project
  | Err _ => None
  end.

(** The entities of the valid descriptors among [l], in order. *)
Definition validEntities (l : list (string * Entry)) : list Project :=
  omap loadDescriptor (filter (fun pe => isDescriptor pe = true) l).

(** A scan of listed entries that stops at the first I/O error. *)
Fixpoint scan (l : list (string * Entry)) (projects : list Project)
  : list Project * option error :=
  match l with
  | [] => (projects, None)
  | pe :: l' =>
      match ioError pe with
      | Some err => (projects, Some err)
      | None =>
          scan l'
            (if isDescriptor pe
             then match loadDescriptor pe with
                  | Some project => (projects ++ [project])%list
                  | None => projects
                  end
             else projects)
      end
  end.

End Discovery.

(** ** The contract of sort.Slice *)

(** [less] is a strict weak ordering, as [sort.Slice] requires. *)
Definition strictWeakOrder {A} (less : A -> A -> bool) : Prop :=
  (forall x, less x x = false) /\
  (forall x y z, less x y = true -> less y z = true -> less x z = true) /\
  (forall x y z, less x y = false -> less y z = false -> less x z = false).

(** No element is less than one placed before it. *)
Definition sortedBy {A} (less : A -> A -> bool) (l : list A) : Prop :=
  StronglySorted (fun a b => less b a = false) l.

(** What package [sort] promises of [sort.Slice]: for a strict weak ordering
    the slice is rearranged into sorted order. *)
Definition sortsSlices {A} (sort_Slice : (A -> A -> bool) -> list A -> list A) : Prop :=
  forall less l, strictWeakOrder less ->
    Permutation l (sort_Slice less l) /\ sortedBy less (sort_Slice less l).

(** Most recently accessed first, never accessed last: for [pi] placed before
    [pj], either [pj] was never accessed, or both were and [pi] not earlier
    than [pj]. *)
Definition recentFirst (records : gmap string AccessRecord) (pi pj : Project) : Prop :=
  match records !! ProjectInfo.ID (ProjectInfo pi),
        records !! ProjectInfo.ID (ProjectInfo pj) with
  | _, None => True
  | None, Some _ => False
  | Some accessI, Some accessJ => (LastAccessed accessJ <= LastAccessed accessI)%Z
  end.

(** ** Sample descriptors, file trees and library instances *)

Definition set_ProjectInfo (v : ProjectInfo.t) (p : Project) : Project :=
  {| Path := Path p; ProjectInfo := v; Tech := Tech p;
     Dates := Dates p; Links := Links p; Notes := Notes p; Tmux := Tmux p;
     Context := Context p; Consultant := Consultant p; DataKai := DataKai p;
     LegacyOwnership := LegacyOwnership p; LegacyClient := LegacyClient p;
     migrated := migrated p |}.

Definition set_LegacyOwnership (v : LegacyOwnership.t) (p : Project) : Project :=
  {| Path := Path p; ProjectInfo := ProjectInfo p; Tech := Tech p;
     Dates := Dates p; Links := Links p; Notes := Notes p; Tmux := Tmux p;
     Context := Context p; Consultant := Consultant p; DataKai := DataKai p;
     LegacyOwnership := v; LegacyClient := LegacyClient p;
     migrated := migrated p |}.

Definition set_LegacyClient (v : LegacyClient.t) (p : Project) : Project :=
  {| Path := Path p; ProjectInfo := ProjectInfo p; Tech := Tech p;
     Dates := Dates p; Links := Links p; Notes := Notes p; Tmux := Tmux p;
     Context := Context p; Consultant := Consultant p; DataKai := DataKai p;
     LegacyOwnership := LegacyOwnership p; LegacyClient := v;
     migrated := migrated p |}.

Definition withID (id : string) : Project -> Project :=
  set_ProjectInfo
    {| ProjectInfo.Name := ""; ProjectInfo.ID := id;
       ProjectInfo.Status := ""; ProjectInfo.Type_ := "" |}.

(** [project.id = alpha], [ownership.primary = acme],
    [ownership.visibility = private], and no other section. *)
Definition alpha_toml : string :=
"[project]
id = 'alpha'

[ownership]
primary = 'acme'
visibility = 'private'
".

Definition alphaDecoded (p : Project) : Project :=
  set_LegacyOwnership
    {| LegacyOwnership.Primary := "acme"; LegacyOwnership.Partners := [];
       LegacyOwnership.LicenseModel := ""; LegacyOwnership.Visibility := "private" |}
    (withID "alpha" p).

(** A descriptor that fills both schemas, with values that disagree. *)
Definition conflict_toml : string :=
"[project]
id = 'gamma'

[consultant]
ownership = 'datakai'
client_name = 'NewCo'

[datakai]
visibility = 'public'

[ownership]
primary = 'acme'
visibility = 'private'

[client]
end_client = 'OldCo'
".

Definition conflictDecoded (p : Project) : Project :=
  set_LegacyClient
    {| LegacyClient.EndClient := "OldCo"; LegacyClient.Intermediary := "";
       LegacyClient.MyRole := "" |}
    (set_LegacyOwnership
       {| LegacyOwnership.Primary := "acme"; LegacyOwnership.Partners := [];
          LegacyOwnership.LicenseModel := ""; LegacyOwnership.Visibility := "private" |}
       (upd_DataKai (DataKai.set_Visibility "public")
          (upd_Consultant (Consultant.set_ClientName "NewCo")
             (upd_Consultant (Consultant.set_Ownership "datakai")
                (withID "gamma" p))))).

(** New-schema values next to legacy sections that leave the matching
    fields out. *)
Definition partial_toml : string :=
"[project]
id = 'delta'

[consultant]
client_name = 'NewCo'
my_role = 'lead'
license_model = 'proprietary'

[ownership]
primary = 'acme'

[client]
intermediary = 'West Monroe'
".

Definition partialDecoded (p : Project) : Project :=
  set_LegacyClient
    {| LegacyClient.EndClient := ""; LegacyClient.Intermediary := "West Monroe";
       LegacyClient.MyRole := "" |}
    (set_LegacyOwnership
       {| LegacyOwnership.Primary := "acme"; LegacyOwnership.Partners := [];
          LegacyOwnership.LicenseModel := ""; LegacyOwnership.Visibility := "" |}
       (upd_Consultant (Consultant.set_LicenseModel "proprietary")
          (upd_Consultant (Consultant.set_MyRole "lead")
             (upd_Consultant (Consultant.set_ClientName "NewCo")
                (withID "delta" p))))).

(** A legacy [[ownership]] section with a visibility and no primary owner. *)
Definition orphan_toml : string :=
"[project]
id = 'epsilon'

[ownership]
visibility = 'private'
".

Definition orphanDecoded (p : Project) : Project :=
  set_LegacyOwnership
    {| LegacyOwnership.Primary := ""; LegacyOwnership.Partners := [];
       LegacyOwnership.LicenseModel := ""; LegacyOwnership.Visibility := "private" |}
    (withID "epsilon" p).

(** Only new-schema sections. *)
Definition modern_toml : string :=
"[project]
id = 'zeta'

[consultant]
ownership = 'datakai'

[datakai]
visibility = 'public'
".

Definition modernDecoded (p : Project) : Project :=
  upd_DataKai (DataKai.set_Visibility "public")
    (upd_Consultant (Consultant.set_Ownership "datakai") (withID "zeta" p)).

(** Invalid syntax: the table header is not closed. *)
Definition malformed_toml : string :=
"[project
name = 'Invalid".

(** A decoder that knows the sample descriptors and rejects every other
    text. *)
Definition sampleDecode (data : string) (p : Project) : result Project :=
  if String.eqb data alpha_toml then Ok (alphaDecoded p)
  else if String.eqb data conflict_toml then Ok (conflictDecoded p)
  else if String.eqb data partial_toml then Ok (partialDecoded p)
  else if String.eqb data orphan_toml then Ok (orphanDecoded p)
  else if String.eqb data modern_toml then Ok (modernDecoded p)
  else Err (DecodeError "toml: invalid syntax").

(** The descriptors as decoded from a file in directory [/w]. *)
Definition decodedIn (decoded : Project -> Project) : Project :=
  decoded (set_Path "/w" zeroProject).

(** A projects directory with three descriptors, the second one malformed,
    and one file that is no descriptor. *)
Definition projectsTree : Entry :=
  Dir "projects"
    [ Dir "alpha" [ File ".project.toml" (Content alpha_toml);
                    File "main.go" (Content "package main") ];
      Dir "beta" [ File ".project.toml" (Content malformed_toml) ];
      Dir "gamma" [ File ".project.toml" (Content conflict_toml) ] ].

(** A scratch directory in which one subdirectory cannot be read, with
    descriptors before and after it. *)
Definition scratchTree : Entry :=
  Dir "scratch"
    [ Dir "zeta" [ File ".project.toml" (Content modern_toml) ];
      DirUnreadable "locked" EACCES;
      Dir "late" [ File ".project.toml" (Content orphan_toml) ] ].

(** A scratch directory that reads without error. *)
Definition scratchTreeOk : Entry :=
  Dir "scratch"
    [ Dir "zeta" [ File ".project.toml" (Content modern_toml) ];
      Dir "late" [ File ".project.toml" (Content orphan_toml) ] ].

Definition dq : string := String (ascii_of_nat 34) "".

(** A snapshot text and the only list it decodes to with [sampleUnmarshal]. *)
Definition snapshot_json : string :=
  "[{" ++ dq ++ "Path" ++ dq ++ ":" ++ dq ++ "/w" ++ dq ++ "}]".

Definition snapshotProjects : list Project := [migrateSchema (decodedIn alphaDecoded)].

Definition sampleMarshal (projects : list Project) : result string :=
  Ok (match projects with
      | [] => "[]"
      | _ => snapshot_json
      end).

Definition sampleUnmarshal (data : string) : result (list Project) :=
  if String.eqb data "[]" then Ok []
  else if String.eqb data snapshot_json then Ok snapshotProjects
  else Err (DecodeError "json: invalid character").

(** Access records: alpha at 100, zeta at 200, gamma at 300. *)
Definition access_json : string :=
  "{" ++ dq ++ "alpha" ++ dq ++ ":100," ++ dq ++ "zeta" ++ dq ++ ":200,"
      ++ dq ++ "gamma" ++ dq ++ ":300}".

Definition accessAt (id : string) (t : Z) : AccessRecord :=
  {| ProjectID := id; ProjectPath := "/home/u/projects/" ++ id; LastAccessed := t |}.

Definition sampleRecords : gmap string AccessRecord :=
  <["alpha" := accessAt "alpha" 100]>
    (<["zeta" := accessAt "zeta" 200]>
       (<["gamma" := accessAt "gamma" 300]> ∅)).

Definition sampleMarshalRecords (records : gmap string AccessRecord) : result string :=
  Ok (if bool_decide (records = ∅) then "{}" else access_json).

Definition sampleUnmarshalRecords (data : string) : result (gmap string AccessRecord) :=
  if String.eqb data "{}" then Ok ∅
  else if String.eqb data access_json then Ok sampleRecords
  else Err (DecodeError "json: invalid character").

Definition cacheFileName : string := "/home/u/.cache/pk/projects.json".
Definition accessFileName : string := "/home/u/.cache/pk/access.json".

(** A machine with both discovery roots, no snapshot and no access file. *)
Definition freshWorld : World :=
  {| now := 1000 * Minute; home := Some "/home/u";
     mkdir_errno := None; write_errno := None;
     files := ∅;
     trees := <["/home/u/projects" := projectsTree]>
                (<["/home/u/scratch" := scratchTreeOk]> ∅) |}.

(** The same machine when a subdirectory of scratch cannot be read. *)
Definition lockedWorld : World :=
  {| now := 1000 * Minute; home := Some "/home/u";
     mkdir_errno := None; write_errno := None;
     files := ∅;
     trees := <["/home/u/projects" := projectsTree]>
                (<["/home/u/scratch" := scratchTree]> ∅) |}.

(** [freshWorld] with a snapshot written [age] nanoseconds ago and holding
    [text], and with the access file. *)
Definition cachedWorld (age : Z) (text : string) : World :=
  set_files
    (<[cacheFileName := {| ModTime := (1000 * Minute - age)%Z; data := Content text |}]>
       (<[accessFileName := {| ModTime := 0; data := Content access_json |}]> ∅))
    freshWorld.

(** ** Command list: filtering the discovered projects *)

(** The [switch filter] inside the loop of [filterProjects]: whether [p] is
    appended to [filtered]. *)
Definition filterCase (filter : string) (p : Project) : bool :=
  if String.eqb filter "active" then
    String.eqb (ProjectInfo.Status (ProjectInfo p)) "active"
  else if String.eqb filter "archived" then
    String.eqb (ProjectInfo.Status (ProjectInfo p)) "archived"
  else if String.eqb filter "datakai" then String.eqb (GetOwner p) "datakai"
  else if String.eqb filter "westmonroe" then String.eqb (GetOwner p) "westmonroe"
  else if String.eqb filter "product" then
    String.eqb (ProjectInfo.Type_ (ProjectInfo p)) "product"
  else if String.eqb filter "client" || String.eqb filter "client-project" then
    String.eqb (ProjectInfo.Type_ (ProjectInfo p)) "client-project"
  else false.

(** The [for _, p := range projects] loop, from the slice built so far. *)
Fixpoint filterProjects_loop (filter : string) (projects filtered : list Project)
  : list Project :=
  match projects with
  | [] => filtered
  | p :: rest =>
      filterProjects_loop filter rest
        (if filterCase filter p then (filtered ++ [p])%list else filtered)
  end.

Definition filterProjects (projects : list Project) (filter : string) : list Project :=
  if String.eqb filter "" then projects
  else filterProjects_loop filter projects [].

(** [getFilterLabel]. *)
Definition getFilterLabel (filter : string) : string :=
  if String.eqb filter "" then "all" else filter.

(** A project has an access record. *)
Definition accessed (records : gmap string AccessRecord) (p : Project) : bool :=
  bool_decide (is_Some (records !! ProjectInfo.ID (ProjectInfo p))).

(** The access map after the first recorded access on [freshWorld], its
    text, and a codec that knows it next to the sample codec. *)
Definition firstAccess : gmap string AccessRecord :=
  <["alpha" := {| ProjectID := "alpha"; ProjectPath := "/home/u/projects/alpha";
                  LastAccessed := now freshWorld |}]> ∅.

Definition firstAccess_json : string :=
  "{" ++ dq ++ "alpha" ++ dq ++ ":60000000000000}".

#[global] Instance AccessRecord_eq_dec : EqDecision AccessRecord.
Proof. solve_decision. Defined.

Definition tableMarshalRecords (records : gmap string AccessRecord) : result string :=
  if bool_decide (records = firstAccess) then Ok firstAccess_json
  else sampleMarshalRecords records.

Definition tableUnmarshalRecords (data : string) : result (gmap string AccessRecord) :=
  if String.eqb data firstAccess_json then Ok firstAccess
  else sampleUnmarshalRecords data.

(** A legacy [[ownership]] section with two partners. *)
Definition partners_toml : string :=
"[project]
id = 'theta'

[ownership]
primary = 'acme'
partners = ['westmonroe', 'deloitte']
".

Definition partnersDecoded (p : Project) : Project :=
  set_LegacyOwnership
    {| LegacyOwnership.Primary := "acme";
       LegacyOwnership.Partners := ["westmonroe"; "deloitte"];
       LegacyOwnership.LicenseModel := ""; LegacyOwnership.Visibility := "" |}
    (withID "theta" p).

(** The same descriptor with a legacy [[client]] section naming an
    intermediary. *)
Definition intermediaryDecoded (p : Project) : Project :=
  set_LegacyClient
    {| LegacyClient.EndClient := "Initech"; LegacyClient.Intermediary := "Accenture";
       LegacyClient.MyRole := "lead" |}
    (partnersDecoded p).

(** [p] with the given status and type. *)
Definition withStatusType (status type : string) (p : Project) : Project :=
  set_ProjectInfo
    {| ProjectInfo.Name := ProjectInfo.Name (ProjectInfo p);
       ProjectInfo.ID := ProjectInfo.ID (ProjectInfo p);
       ProjectInfo.Status := status; ProjectInfo.Type_ := type |} p.

(** Three loaded entities: an active product owned by datakai, an archived
    client project owned by acme, and an active project of type [client]. *)
Definition listedProjects : list Project :=
  [ withStatusType "active" "product" (migrateSchema (decodedIn modernDecoded));
    withStatusType "archived" "client-project" (migrateSchema (decodedIn conflictDecoded));
    withStatusType "active" "client" (migrateSchema (decodedIn alphaDecoded)) ].

(** * Properties of the schema migration *)

#[local] Open Scope list_scope.

Lemma nonempty_true s : nonempty s = true <-> s <> "".
Proof. unfold nonempty. destruct (String.eqb_spec s ""); simpl; split; congruence. Qed.

Lemma nonempty_false s : nonempty s = false <-> s = "".
Proof. unfold nonempty. destruct (String.eqb_spec s ""); simpl; split; congruence. Qed.

(** Case analysis on which legacy values of [p] are empty; every test of
    [migrateSchema] then computes. *)
Ltac migrate_cases p :=
  destruct p as [? ? ? ? [? ? sp cg] ? ? ? ? ? [pr ps lm vi] [ec im mr] ?];
  destruct pr, ps, vi, ec, im, sp, cg.

Lemma migrateSchema_reads_only p :
  LegacyOwnership (migrateSchema p) = LegacyOwnership p /\
  LegacyClient (migrateSchema p) = LegacyClient p /\
  Links (migrateSchema p) = Links p.
Proof. migrate_cases p; vm_compute; done. Qed.

Lemma migrateSchema_Ownership p :
  Consultant.Ownership (Consultant (migrateSchema p)) =
  if nonempty (LegacyOwnership.Primary (LegacyOwnership p))
  then LegacyOwnership.Primary (LegacyOwnership p)
  else Consultant.Ownership (Consultant p).
Proof. migrate_cases p; vm_compute; done. Qed.

Lemma migrateSchema_Visibility p :
  DataKai.Visibility (DataKai (migrateSchema p)) =
  if nonempty (LegacyOwnership.Primary (LegacyOwnership p))
     && nonempty (LegacyOwnership.Visibility (LegacyOwnership p))
  then LegacyOwnership.Visibility (LegacyOwnership p)
  else DataKai.Visibility (DataKai p).
Proof. migrate_cases p; vm_compute; done. Qed.

Lemma migrateSchema_ClientName p :
  Consultant.ClientName (Consultant (migrateSchema p)) =
  if nonempty (LegacyClient.EndClient (LegacyClient p))
     || nonempty (LegacyClient.Intermediary (LegacyClient p))
  then LegacyClient.EndClient (LegacyClient p)
  else Consultant.ClientName (Consultant p).
Proof. migrate_cases p; vm_compute; done. Qed.

Lemma migrateSchema_MyRole p :
  Consultant.MyRole (Consultant (migrateSchema p)) =
  if nonempty (LegacyClient.EndClient (LegacyClient p))
     || nonempty (LegacyClient.Intermediary (LegacyClient p))
  then LegacyClient.MyRole (LegacyClient p)
  else Consultant.MyRole (Consultant p).
Proof. migrate_cases p; vm_compute; done. Qed.

Lemma migrateSchema_LicenseModel p :
  Consultant.LicenseModel (Consultant (migrateSchema p)) =
  if nonempty (LegacyOwnership.Primary (LegacyOwnership p))
  then LegacyOwnership.LicenseModel (LegacyOwnership p)
  else Consultant.LicenseModel (Consultant p).
Proof. migrate_cases p; vm_compute; done. Qed.

Lemma migrateSchema_Partner p :
  Consultant.Partner (Consultant (migrateSchema p)) =
  if nonempty (LegacyClient.Intermediary (LegacyClient p))
  then LegacyClient.Intermediary (LegacyClient p)
  else match LegacyOwnership.Partners (LegacyOwnership p) with
       | first :: _ =>
           if nonempty (LegacyOwnership.Primary (LegacyOwnership p))
           then first else Consultant.Partner (Consultant p)
       | [] => Consultant.Partner (Consultant p)
       end.
Proof. migrate_cases p; vm_compute; done. Qed.

Lemma migrateSchema_ClientType p :
  Consultant.ClientType (Consultant (migrateSchema p)) =
  if nonempty (LegacyClient.Intermediary (LegacyClient p)) then "partner"
  else if nonempty (LegacyClient.EndClient (LegacyClient p)) then "direct"
  else Consultant.ClientType (Consultant p).
Proof. migrate_cases p; vm_compute; done. Qed.

Lemma migrateSchema_DataKai_links p :
  DataKai.ScriptoriumProject (DataKai (migrateSchema p)) =
    (if nonempty (Links.ScriptoriumProject (Links p))
     then Links.ScriptoriumProject (Links p)
     else DataKai.ScriptoriumProject (DataKai p)) /\
  DataKai.ConduitGraph (DataKai (migrateSchema p)) =
    (if nonempty (Links.ConduitGraph (Links p))
     then Links.ConduitGraph (Links p)
     else DataKai.ConduitGraph (DataKai p)).
Proof. migrate_cases p; vm_compute; done. Qed.


(** What [LoadProject] yields once the file is read and decodes. *)
Lemma LoadProject_decoded toml_Decode path data d :
  toml_Decode data (set_Path (filepath_Dir path) zeroProject) = Ok d ->
  LoadProject toml_Decode path (Ok data) = Ok (migrateSchema d).
Proof. intros Hd. unfold LoadProject. simpl. by rewrite Hd. Qed.

(** ** Precedence between the two schemas *)

(** C1, counterexample: a descriptor sets [[consultant]].ownership,
    [[consultant]].client_name and [[datakai]].visibility next to the legacy
    [[ownership]] and [[client]] sections; after migration none of the three
    new-schema values is left, each field holds the legacy value. *)
Lemma migrateSchema_new_value_replaced :
  let p := decodedIn conflictDecoded in
  (Consultant.Ownership (Consultant p) = "datakai" /\
   LegacyOwnership.Primary (LegacyOwnership p) = "acme" /\
   Consultant.Ownership (Consultant (migrateSchema p)) = "acme") /\
  (Consultant.ClientName (Consultant p) = "NewCo" /\
   LegacyClient.EndClient (LegacyClient p) = "OldCo" /\
   Consultant.ClientName (Consultant (migrateSchema p)) = "OldCo") /\
  (DataKai.Visibility (DataKai p) = "public" /\
   LegacyOwnership.Visibility (LegacyOwnership p) = "private" /\
   DataKai.Visibility (DataKai (migrateSchema p)) = "private").
Proof. vm_compute. repeat split. Qed.

(** C1, as the code has it: where a legacy value is present, the normalized
    entity carries the legacy value, whatever the new-schema field held:
    [[ownership]].primary becomes [Consultant.Ownership],
    [[client]].end_client becomes [Consultant.ClientName], and
    [[ownership]].visibility becomes [DataKai.Visibility] when
    [[ownership]].primary is set too. Without [[ownership]].primary the
    visibility of the new schema is kept. *)
Theorem migrateSchema_legacy_wins p :
  (LegacyOwnership.Primary (LegacyOwnership p) <> "" ->
   Consultant.Ownership (Consultant (migrateSchema p)) =
   LegacyOwnership.Primary (LegacyOwnership p)) /\
  (LegacyClient.EndClient (LegacyClient p) <> "" ->
   Consultant.ClientName (Consultant (migrateSchema p)) =
   LegacyClient.EndClient (LegacyClient p)) /\
  (LegacyOwnership.Primary (LegacyOwnership p) <> "" ->
   LegacyOwnership.Visibility (LegacyOwnership p) <> "" ->
   DataKai.Visibility (DataKai (migrateSchema p)) =
   LegacyOwnership.Visibility (LegacyOwnership p)) /\
  (LegacyOwnership.Primary (LegacyOwnership p) = "" ->
   DataKai.Visibility (DataKai (migrateSchema p)) = DataKai.Visibility (DataKai p)).
Proof.
  rewrite migrateSchema_Ownership, migrateSchema_ClientName, migrateSchema_Visibility.
  repeat split.
  - intros H. by apply nonempty_true in H as ->.
  - intros H. by apply nonempty_true in H as ->.
  - intros H1 H2. apply nonempty_true in H1 as ->. by apply nonempty_true in H2 as ->.
  - intros H. by apply nonempty_false in H as ->.
Qed.

Lemma migrateSchema_legacy_wins_witness :
  (Consultant.Ownership (Consultant (migrateSchema (decodedIn conflictDecoded))) = "acme" /\
   Consultant.ClientName (Consultant (migrateSchema (decodedIn conflictDecoded))) = "OldCo" /\
   DataKai.Visibility (DataKai (migrateSchema (decodedIn conflictDecoded))) = "private") /\
  DataKai.Visibility (DataKai (migrateSchema (decodedIn modernDecoded))) = "public".
Proof.
  destruct (migrateSchema_legacy_wins (decodedIn conflictDecoded)) as (H1 & H2 & H3 & _).
  destruct (migrateSchema_legacy_wins (decodedIn modernDecoded)) as (_ & _ & _ & H4).
  split; [split; [|split]|].
  - apply H1. vm_compute. discriminate.
  - apply H2. vm_compute. discriminate.
  - apply H3; vm_compute; discriminate.
  - apply H4. vm_compute. reflexivity.
Defined.

(** C2, counterexample: [[consultant]] sets license_model, client_name and
    my_role; the legacy sections are present but leave the matching fields
    empty; migration overwrites all three with the empty string. *)
Lemma migrateSchema_overwrites_with_empty :
  let p := decodedIn partialDecoded in
  (Consultant.LicenseModel (Consultant p) = "proprietary" /\
   LegacyOwnership.LicenseModel (LegacyOwnership p) = "" /\
   Consultant.LicenseModel (Consultant (migrateSchema p)) = "") /\
  (Consultant.ClientName (Consultant p) = "NewCo" /\
   LegacyClient.EndClient (LegacyClient p) = "" /\
   Consultant.ClientName (Consultant (migrateSchema p)) = "") /\
  (Consultant.MyRole (Consultant p) = "lead" /\
   LegacyClient.MyRole (LegacyClient p) = "" /\
   Consultant.MyRole (Consultant (migrateSchema p)) = "").
Proof. vm_compute. repeat split. Qed.

(** C2, as the code has it: a canonical field is unchanged by migration
    when the legacy section that feeds it is absent, or, for the guarded
    assignments, when its own legacy value is empty. *)
Theorem migrateSchema_keeps_canonical p :
  (LegacyOwnership.Primary (LegacyOwnership p) = "" ->
   Consultant.Ownership (Consultant (migrateSchema p)) = Consultant.Ownership (Consultant p) /\
   Consultant.LicenseModel (Consultant (migrateSchema p)) = Consultant.LicenseModel (Consultant p)) /\
  (LegacyClient.EndClient (LegacyClient p) = "" ->
   LegacyClient.Intermediary (LegacyClient p) = "" ->
   Consultant.ClientName (Consultant (migrateSchema p)) = Consultant.ClientName (Consultant p) /\
   Consultant.MyRole (Consultant (migrateSchema p)) = Consultant.MyRole (Consultant p) /\
   Consultant.ClientType (Consultant (migrateSchema p)) = Consultant.ClientType (Consultant p)) /\
  (LegacyOwnership.Partners (LegacyOwnership p) = [] ->
   LegacyClient.Intermediary (LegacyClient p) = "" ->
   Consultant.Partner (Consultant (migrateSchema p)) = Consultant.Partner (Consultant p)) /\
  (LegacyOwnership.Visibility (LegacyOwnership p) = "" ->
   DataKai.Visibility (DataKai (migrateSchema p)) = DataKai.Visibility (DataKai p)) /\
  (Links.ScriptoriumProject (Links p) = "" ->
   DataKai.ScriptoriumProject (DataKai (migrateSchema p)) =
   DataKai.ScriptoriumProject (DataKai p)) /\
  (Links.ConduitGraph (Links p) = "" ->
   DataKai.ConduitGraph (DataKai (migrateSchema p)) = DataKai.ConduitGraph (DataKai p)).
Proof.
  destruct (migrateSchema_DataKai_links p) as [Hsp Hcg].
  rewrite migrateSchema_Ownership, migrateSchema_LicenseModel, migrateSchema_ClientName,
    migrateSchema_MyRole, migrateSchema_ClientType, migrateSchema_Partner,
    migrateSchema_Visibility, Hsp, Hcg.
  repeat split; intros;
    repeat match goal with
           | H : _ = _ |- _ => rewrite H; clear H
           end;
    cbn; rewrite ?andb_false_r; reflexivity.
Qed.

Lemma migrateSchema_keeps_canonical_witness :
  let p := decodedIn modernDecoded in
  Consultant.Ownership (Consultant (migrateSchema p)) = "datakai" /\
  Consultant.LicenseModel (Consultant (migrateSchema p)) = Consultant.LicenseModel (Consultant p) /\
  Consultant.ClientName (Consultant (migrateSchema p)) = Consultant.ClientName (Consultant p) /\
  Consultant.Partner (Consultant (migrateSchema p)) = Consultant.Partner (Consultant p) /\
  DataKai.Visibility (DataKai (migrateSchema p)) = "public" /\
  DataKai.ScriptoriumProject (DataKai (migrateSchema p)) = "" /\
  DataKai.ConduitGraph (DataKai (migrateSchema p)) = "".
Proof.
  destruct (migrateSchema_keeps_canonical (decodedIn modernDecoded))
    as (H1 & H2 & H3 & H4 & H5 & H6).
  destruct H1 as [H1a H1b]; [vm_compute; reflexivity|].
  destruct H2 as (H2a & _ & _); [vm_compute; reflexivity|vm_compute; reflexivity|].
  intros p. split_and!.
  - exact H1a.
  - exact H1b.
  - exact H2a.
  - apply H3; vm_compute; reflexivity.
  - apply H4; vm_compute; reflexivity.
  - apply H5; vm_compute; reflexivity.
  - apply H6; vm_compute; reflexivity.
Defined.

(** ** Migration of the visibility *)

(** C4, counterexample: a legacy [[ownership]] section with a visibility but
    no primary owner; the visibility is not migrated. *)
Lemma migrateSchema_orphan_visibility :
  let p := decodedIn orphanDecoded in
  LegacyOwnership.Visibility (LegacyOwnership p) = "private" /\
  DataKai.Visibility (DataKai (migrateSchema p)) = "".
Proof. vm_compute. split; reflexivity. Qed.

(** ** Idempotence *)

(** C5: migrating twice yields the same entity as migrating once. *)
Theorem migrateSchema_idempotent p : migrateSchema (migrateSchema p) = migrateSchema p.
Proof. migrate_cases p; vm_compute; reflexivity. Qed.

Section Loading.

Variable toml_Decode : string -> Project -> result Project.

(** C3, as the code has it: on a loaded entity [GetOwner] returns the
    legacy [[ownership]].primary whenever the descriptor has one, also when
    the new-schema ownership is present; it returns the new-schema
    ownership when only that is present, and the empty string when neither
    is. *)
Theorem GetOwner_loaded path data d :
  toml_Decode data (set_Path (filepath_Dir path) zeroProject) = Ok d ->
  exists e, LoadProject toml_Decode path (Ok data) = Ok e /\
    (LegacyOwnership.Primary (LegacyOwnership d) <> "" ->
     GetOwner e = LegacyOwnership.Primary (LegacyOwnership d)) /\
    (LegacyOwnership.Primary (LegacyOwnership d) = "" ->
     Consultant.Ownership (Consultant d) <> "" ->
     GetOwner e = Consultant.Ownership (Consultant d)) /\
    (LegacyOwnership.Primary (LegacyOwnership d) = "" ->
     Consultant.Ownership (Consultant d) = "" ->
     GetOwner e = "").
Proof.
  intros Hd. exists (migrateSchema d). split; [by apply LoadProject_decoded|].
  unfold GetOwner. destruct (migrateSchema_reads_only d) as (-> & _ & _).
  rewrite migrateSchema_Ownership.
  repeat split.
  - intros H. pose proof H as H'. apply nonempty_true in H' as ->.
    by apply nonempty_true in H as ->.
  - intros H1 H2. pose proof H1 as H1'. apply nonempty_false in H1' as ->.
    by apply nonempty_true in H2 as ->.
  - intros H1 H2. pose proof H1 as H1'. apply nonempty_false in H1' as ->.
    rewrite H2. by rewrite H1.
Qed.

(** C4, as the code has it: the legacy visibility reaches
    [DataKai.Visibility] when the legacy section also names a primary
    owner; and a descriptor holding only [project.id = alpha],
    [ownership.primary = acme] and [ownership.visibility = private] loads
    with ownership [acme], visibility [private] and no Scriptorium link. *)
Theorem migrateSchema_visibility p path data :
  (LegacyOwnership.Primary (LegacyOwnership p) <> "" ->
   LegacyOwnership.Visibility (LegacyOwnership p) <> "" ->
   DataKai.Visibility (DataKai (migrateSchema p)) =
   LegacyOwnership.Visibility (LegacyOwnership p)) /\
  (toml_Decode data (set_Path (filepath_Dir path) zeroProject) =
     Ok (alphaDecoded (set_Path (filepath_Dir path) zeroProject)) ->
   exists e, LoadProject toml_Decode path (Ok data) = Ok e /\
     Consultant.Ownership (Consultant e) = "acme" /\
     DataKai.Visibility (DataKai e) = "private" /\
     Links.ScriptoriumProject (Links e) = "").
Proof.
  split.
  - intros H1 H2. rewrite migrateSchema_Visibility.
    apply nonempty_true in H1 as ->. by apply nonempty_true in H2 as ->.
  - intros Hd. eexists. split; [by apply LoadProject_decoded|].
    vm_compute. repeat split.
Qed.

End Loading.

(** C3, counterexample: the descriptor names [datakai] as new-schema owner
    and [acme] as legacy owner; [GetOwner] on the loaded entity answers
    [acme]. *)
Lemma GetOwner_loaded_legacy :
  Consultant.Ownership (Consultant (decodedIn conflictDecoded)) = "datakai" /\
  LegacyOwnership.Primary (LegacyOwnership (decodedIn conflictDecoded)) = "acme" /\
  exists e, LoadProject sampleDecode "/w/.project.toml" (Ok conflict_toml) = Ok e /\
    GetOwner e = "acme".
Proof. split; [|split]; [reflexivity..|]. eexists. split; vm_compute; reflexivity. Qed.

Lemma GetOwner_loaded_witness :
  (exists e, LoadProject sampleDecode "/w/.project.toml" (Ok alpha_toml) = Ok e /\
     GetOwner e = "acme") /\
  (exists e, LoadProject sampleDecode "/w/.project.toml" (Ok modern_toml) = Ok e /\
     GetOwner e = "datakai") /\
  (exists e, LoadProject sampleDecode "/w/.project.toml" (Ok orphan_toml) = Ok e /\
     GetOwner e = "").
Proof.
  split; [|split].
  - destruct (GetOwner_loaded sampleDecode "/w/.project.toml" alpha_toml
                (decodedIn alphaDecoded)) as (e & He & H & _); [vm_compute; reflexivity|].
    exists e. split; [exact He|]. apply H. vm_compute. discriminate.
  - destruct (GetOwner_loaded sampleDecode "/w/.project.toml" modern_toml
                (decodedIn modernDecoded)) as (e & He & _ & H & _); [vm_compute; reflexivity|].
    exists e. split; [exact He|]. apply H; vm_compute; [reflexivity|discriminate].
  - destruct (GetOwner_loaded sampleDecode "/w/.project.toml" orphan_toml
                (decodedIn orphanDecoded)) as (e & He & _ & _ & H); [vm_compute; reflexivity|].
    exists e. split; [exact He|]. apply H; vm_compute; reflexivity.
Defined.

Lemma migrateSchema_visibility_witness :
  DataKai.Visibility (DataKai (migrateSchema (decodedIn alphaDecoded))) = "private" /\
  exists e, LoadProject sampleDecode "/w/.project.toml" (Ok alpha_toml) = Ok e /\
    Consultant.Ownership (Consultant e) = "acme" /\
    DataKai.Visibility (DataKai e) = "private" /\
    Links.ScriptoriumProject (Links e) = "".
Proof.
  destruct (migrateSchema_visibility sampleDecode (decodedIn alphaDecoded)
              "/w/.project.toml" alpha_toml) as [H1 H2].
  split.
  - apply H1; vm_compute; discriminate.
  - apply H2. vm_compute. reflexivity.
Defined.

(** * Discovery *)

Section DiscoveryFacts.
Variable toml_Decode : string -> Project -> result Project.
Abbreviation fn := (findProjectsFn toml_Decode).
Abbreviation scan := (scan toml_Decode).

Lemma scan_app l1 l2 acc :
  scan (l1 ++ l2) acc =
  match scan l1 acc with
  | (acc', None) => scan l2 acc'
  | r => r
  end.
Proof.
  revert acc. induction l1 as [|pe l1 IH]; intros acc; simpl; [done|].
  destruct (ioError pe); [done|]. apply IH.
Qed.

Lemma scan_error_is_PathError l acc acc' err :
  scan l acc = (acc', Some err) -> exists op path en, err = PathError op path en.
Proof.
  revert acc. induction l as [|[p e] l IH]; intros acc; simpl; [done|].
  unfold ioError; simpl. destruct e; eauto; intros [= _ <-]; eauto.
Qed.

Lemma findProjectsFn_ok path e acc :
  fn path e None acc =
  (if isDescriptor (path, e)
   then match loadDescriptor toml_Decode (path, e) with
        | Some project => acc ++ [project]
        | None => acc
        end
   else acc, None).
Proof.
  unfold findProjectsFn, isDescriptor, loadDescriptor; simpl.
  destruct (String.eqb _ _); [|done]. by destruct (LoadProject _ _ _).
Qed.

Lemma walk_scan e : forall path acc,
  walk fn path e acc = scan (entries path e) acc.
Proof.
  induction e as [n d|n cs IH|n en|n en] using Entry_ind; intros path acc.
  - cbn [walk entries scan]. by rewrite findProjectsFn_ok.
  - cbn [walk entries scan]. rewrite findProjectsFn_ok.
    assert (Hown : (if isDescriptor (path, Dir n cs)
                    then match loadDescriptor toml_Decode (path, Dir n cs) with
                         | Some project => acc ++ [project]
                         | None => acc
                         end
                    else acc) = acc) by (by destruct (isDescriptor _)).
    rewrite Hown. cbn [ioError snd]. clear Hown.
    revert acc. induction IH as [|c cs Hc _ IHcs]; intros acc; [done|].
    rewrite scan_app, Hc.
    destruct (scan (entries (filepath_Join path (entryName c)) c) acc)
      as [acc' [err|]] eqn:Hs.
    + by destruct (scan_error_is_PathError _ _ _ _ Hs) as (op & pa & en & ->).
    + apply IHcs.
  - done.
  - done.
Qed.

Lemma scan_clean l acc :
  omap ioError l = [] ->
  scan l acc = (acc ++ validEntities toml_Decode l, None).
Proof.
  unfold validEntities. revert acc.
  induction l as [|pe l IH]; intros acc Hl; simpl.
  - by rewrite app_nil_r.
  - simpl in Hl. destruct (ioError pe); [done|].
    rewrite IH by done.
    destruct (isDescriptor pe) eqn:Hd.
    + rewrite filter_cons_True by done. simpl.
      destruct (loadDescriptor toml_Decode pe); simpl; [|done].
      by rewrite <- app_assoc.
    + rewrite filter_cons_False by (by rewrite Hd). done.
Qed.

Lemma scan_error l acc err :
  head (omap ioError l) = Some err ->
  exists acc', scan l acc = (acc', Some err).
Proof.
  revert acc. induction l as [|pe l IH]; intros acc Hl; simpl; [done|].
  simpl in Hl. destruct (ioError pe) as [e|].
  - simpl in Hl. injection Hl as ->. eauto.
  - by apply IH.
Qed.

Lemma Walk_scan w root acc :
  Walk w root fn acc = scan (entries root (os_Lstat w root)) acc.
Proof.
  unfold Walk. rewrite walk_scan.
  destruct (scan _ acc) as [acc' [err|]] eqn:Hs; [|done].
  by destruct (scan_error_is_PathError _ _ _ _ Hs) as (op & pa & en & ->).
Qed.

Lemma validEntities_app l1 l2 :
  validEntities toml_Decode (l1 ++ l2) =
  validEntities toml_Decode l1 ++ validEntities toml_Decode l2.
Proof. unfold validEntities. by rewrite filter_app, omap_app. Qed.

Lemma FindProjects_loop_clean w rootDirs acc :
  Forall (fun root => rootError w root = None) rootDirs ->
  FindProjects_loop toml_Decode w rootDirs acc =
  Ok (acc ++ validEntities toml_Decode (flat_map (rootEntries w) rootDirs)).
Proof.
  intros Hclean. revert acc.
  induction Hclean as [|root rest Hroot _ IH]; intros acc; simpl.
  - by rewrite app_nil_r.
  - unfold rootError, rootEntries, rootMissing in *.
    destruct (os_IsNotExist (os_Stat_err w root)); [apply IH|].
    rewrite Walk_scan, scan_clean by by apply head_None.
    rewrite IH, validEntities_app. by rewrite app_assoc.
Qed.

Lemma FindProjects_loop_error w pre root post acc err :
  Forall (fun root => rootError w root = None) pre ->
  rootError w root = Some err ->
  FindProjects_loop toml_Decode w (pre ++ root :: post) acc = Err err.
Proof.
  intros Hpre Hroot. revert acc.
  induction Hpre as [|r rest Hr _ IH]; intros acc; simpl.
  - unfold rootError, rootEntries, rootMissing in Hroot.
    destruct (os_IsNotExist (os_Stat_err w root)); [done|].
    rewrite Walk_scan. by destruct (scan_error _ acc _ Hroot) as [acc' ->].
  - unfold rootError, rootEntries, rootMissing in Hr.
    destruct (os_IsNotExist (os_Stat_err w r)); [apply IH|].
    rewrite Walk_scan, scan_clean by by apply head_None.
    apply IH.
Qed.

(** C6: when the walk meets no I/O error, [FindProjects] returns, without
    error, exactly the entities of the descriptors that load, in walk
    order; a descriptor that fails to parse contributes nothing and does
    not stop the scan. *)
Theorem FindProjects_skips_malformed w rootDirs :
  Forall (fun root => rootError w root = None) rootDirs ->
  FindProjects toml_Decode w rootDirs =
  Ok (validEntities toml_Decode (flat_map (rootEntries w) rootDirs)).
Proof. intros H. unfold FindProjects. by rewrite FindProjects_loop_clean. Qed.

Lemma first_failing_root w rootDirs :
  Exists (fun root => rootError w root <> None) rootDirs ->
  exists pre root post err,
    rootDirs = pre ++ root :: post /\
    Forall (fun root => rootError w root = None) pre /\
    rootError w root = Some err.
Proof.
  induction rootDirs as [|r rest IH]; intros Hex; [by apply Exists_nil in Hex|].
  destruct (rootError w r) as [err|] eqn:Hr.
  - exists [], r, rest, err. by repeat split.
  - apply Exists_cons in Hex as [Hex|Hex]; [done|].
    destruct (IH Hex) as (pre & root & post & err & -> & Hpre & Hroot).
    exists (r :: pre), root, post, err. repeat split; [|done]. by constructor.
Qed.

(** C10: if the scan of some existing root meets an I/O error, then
    [FindProjects] returns an error and no project list: the first error
    of the first such root, whatever was discovered before it in that root
    and in the roots scanned earlier. *)
Theorem FindProjects_aborts_on_io_error w rootDirs :
  Exists (fun root => rootError w root <> None) rootDirs ->
  exists pre root post err,
    rootDirs = pre ++ root :: post /\
    Forall (fun root => rootError w root = None) pre /\
    rootMissing w root = false /\
    rootError w root = Some err /\
    FindProjects toml_Decode w rootDirs = Err err.
Proof.
  intros Hex.
  destruct (first_failing_root w rootDirs Hex) as (pre & root & post & err & -> & Hpre & Hroot).
  exists pre, root, post, err. repeat split; try done.
  - unfold rootError, rootEntries in Hroot. by destruct (rootMissing w root).
  - by apply FindProjects_loop_error.
Qed.
End DiscoveryFacts.

(** * The snapshot cache *)

Lemma time_Sub_below t u bound :
  (minDuration < bound <= maxDuration)%Z ->
  (time_Sub t u <? bound)%Z = (t - u <? bound)%Z.
Proof.
  intros Hb. unfold time_Sub.
  destruct (Z.ltb_spec (t - u) minDuration), (Z.ltb_spec maxDuration (t - u));
    destruct (Z.ltb_spec (t - u) bound); try lia;
    match goal with |- (?a <? ?b)%Z = _ => destruct (Z.ltb_spec a b) end; lia.
Qed.

Lemma CacheMaxAge_in_range : (minDuration < CacheMaxAge <= maxDuration)%Z.
Proof. vm_compute. split; [reflexivity|discriminate]. Qed.

Lemma GetCacheFile_set_files fs w : GetCacheFile (set_files fs w) = GetCacheFile w.
Proof. reflexivity. Qed.

Lemma GetCacheFile_set_now t w : GetCacheFile (set_now t w) = GetCacheFile w.
Proof. reflexivity. Qed.

Lemma SaveToCache_ok json_Marshal projects w w' :
  SaveToCache json_Marshal projects w = (None, w') ->
  exists cacheFile text,
    GetCacheFile w = Ok cacheFile /\ json_Marshal projects = Ok text /\
    w' = set_files (<[cacheFile := {| ModTime := now w; data := Content text |}]> (files w)) w.
Proof.
  unfold SaveToCache, os_WriteFile.
  destruct (GetCacheFile w) as [cacheFile|]; [|done].
  destruct (json_Marshal projects) as [text|]; [|done].
  destruct (write_errno w); [done|]. intros [= <-]. eauto.
Qed.

(** C8: [IsCacheValid] answers true exactly when the snapshot file exists and
    less than five minutes have passed since its modification time; after a
    successful [SaveToCache] it answers true until five minutes have
    elapsed, and false from then on. *)
Theorem IsCacheValid_iff json_Marshal w :
  (IsCacheValid w = true <->
   exists cacheFile info,
     GetCacheFile w = Ok cacheFile /\ files w !! cacheFile = Some info /\
     (now w - ModTime info < CacheMaxAge)%Z) /\
  (forall projects w' elapsed,
     SaveToCache json_Marshal projects w = (None, w') ->
     IsCacheValid (set_now (now w + elapsed) w') = (elapsed <? CacheMaxAge)%Z).
Proof.
  split.
  - unfold IsCacheValid, os_Stat, time_Since.
    destruct (GetCacheFile w) as [cacheFile|e]; [|split; [done|by intros (?&?&?&_)]].
    destruct (files w !! cacheFile) as [info|] eqn:Hf.
    + rewrite time_Sub_below by apply CacheMaxAge_in_range.
      rewrite Z.ltb_lt. split; [by eauto|].
      intros (c & i & [= <-] & Hi & Hlt). rewrite Hf in Hi. by injection Hi as <-.
    + split; [done|]. intros (c & i & [= <-] & Hi & _). by rewrite Hf in Hi.
  - intros projects w' elapsed Hsave.
    destruct (SaveToCache_ok _ _ _ _ Hsave) as (cacheFile & text & Hc & _ & ->).
    unfold IsCacheValid. rewrite GetCacheFile_set_now, GetCacheFile_set_files, Hc.
    unfold os_Stat, time_Since. cbn [files set_now set_files now].
    rewrite lookup_insert_eq. cbn [ModTime].
    rewrite time_Sub_below by apply CacheMaxAge_in_range.
    f_equal. lia.
Qed.

Section CacheRead.
Variable toml_Decode : string -> Project -> result Project.
Variable json_Unmarshal : string -> result (list Project).

(** C7: a valid snapshot that deserializes is returned as it is; when the
    snapshot is invalid or absent, or does not deserialize, the caller
    gets what a live [FindProjects] over the roots returns, and the
    deserialization error is not part of it. *)
Theorem FindProjectsCached_read_path w rootDirs :
  (forall projects,
     IsCacheValid w = true -> LoadFromCache json_Unmarshal w = Ok projects ->
     FindProjectsCached toml_Decode json_Unmarshal w rootDirs = (Ok projects, [])) /\
  (IsCacheValid w = false \/ (exists e, LoadFromCache json_Unmarshal w = Err e) ->
   (FindProjectsCached toml_Decode json_Unmarshal w rootDirs).1 =
   FindProjects toml_Decode w rootDirs).
Proof.
  unfold FindProjectsCached. split.
  - intros projects -> ->. done.
  - intros [->|[e ->]].
    + by destruct (FindProjects _ _ _).
    + destruct (IsCacheValid w); by destruct (FindProjects _ _ _).
Qed.
End CacheRead.

(** * Recency ranking *)

Lemma recentLess_strictWeakOrder records : strictWeakOrder (recentLess records).
Proof.
  unfold strictWeakOrder, recentLess, time_After. split_and!.
  - intros x. destruct (records !! _); [apply Z.ltb_irrefl|done].
  - intros x y z.
    destruct (records !! ProjectInfo.ID (ProjectInfo x)),
      (records !! ProjectInfo.ID (ProjectInfo y)),
      (records !! ProjectInfo.ID (ProjectInfo z)); try done.
    rewrite !Z.ltb_lt. lia.
  - intros x y z.
    destruct (records !! ProjectInfo.ID (ProjectInfo x)),
      (records !! ProjectInfo.ID (ProjectInfo y)),
      (records !! ProjectInfo.ID (ProjectInfo z)); try done.
    rewrite !Z.ltb_ge. lia.
Qed.

Lemma recentLess_recentFirst records pi pj :
  recentLess records pj pi = false -> recentFirst records pi pj.
Proof.
  unfold recentLess, recentFirst, time_After.
  destruct (records !! ProjectInfo.ID (ProjectInfo pi)),
    (records !! ProjectInfo.ID (ProjectInfo pj)); try done.
  by rewrite Z.ltb_ge.
Qed.

Lemma sortedBy_recentFirst records l :
  sortedBy (recentLess records) l -> StronglySorted (recentFirst records) l.
Proof.
  induction 1 as [|x l _ IH Hx]; constructor; [done|].
  eapply Forall_impl; [exact Hx|]. intros y. apply recentLess_recentFirst.
Qed.

(** ** Insertion sort meets the contract of [sort.Slice] *)
Section InsertionSort.
Context {A : Type} (less : A -> A -> bool).
Hypothesis Hless : strictWeakOrder less.

Lemma insertLeft_Permutation x revPrefix :
  Permutation (x :: revPrefix) (insertLeft less x revPrefix).
Proof.
  induction revPrefix as [|y ys IH]; simpl; [done|].
  destruct (less x y); [|done].
  rewrite <- IH. apply perm_swap.
Qed.

Lemma insertLeft_sorted x revPrefix :
  StronglySorted (fun a b => less a b = false) revPrefix ->
  StronglySorted (fun a b => less a b = false) (insertLeft less x revPrefix).
Proof.
  destruct Hless as (Hirr & Htrans & Hneg).
  induction 1 as [|y ys Hys IH Hy]; simpl.
  - repeat constructor.
  - destruct (less x y) eqn:Hxy.
    + constructor; [done|].
      rewrite <- insertLeft_Permutation. constructor; [|done].
      destruct (less y x) eqn:Hyx; [|done].
      pose proof (Htrans x y x Hxy Hyx) as Hxx. by rewrite Hirr in Hxx.
    + constructor; [by constructor|]. constructor; [done|].
      eapply Forall_impl; [exact Hy|]. intros z Hyz. by apply (Hneg x y z).
Qed.

Lemma insertionSort_fold l revPrefix :
  StronglySorted (fun a b => less a b = false) revPrefix ->
  Permutation (rev revPrefix ++ l)
    (rev (fold_left (fun rp x => insertLeft less x rp) l revPrefix)) /\
  StronglySorted (fun a b => less a b = false)
    (fold_left (fun rp x => insertLeft less x rp) l revPrefix).
Proof.
  revert revPrefix. induction l as [|x l IH]; intros rp Hrp; simpl.
  - by rewrite app_nil_r.
  - destruct (IH (insertLeft less x rp)) as [Hp Hs]; [by apply insertLeft_sorted|].
    split; [|done]. rewrite <- Hp.
    rewrite <- (Permutation_rev (insertLeft less x rp)), <- insertLeft_Permutation.
    rewrite <- (Permutation_rev rp). simpl. symmetry. apply Permutation_middle.
Qed.

Lemma StronglySorted_rev_flip (R : A -> A -> Prop) l :
  StronglySorted R l -> StronglySorted (fun a b => R b a) (rev l).
Proof.
  induction 1 as [|x l _ IH Hx]; simpl; [constructor|].
  apply StronglySorted_app. split_and!.
  - intros a b Ha ->%list_elem_of_singleton.
    rewrite list_elem_of_In, <- in_rev, <- list_elem_of_In in Ha.
    by eapply Forall_forall in Hx.
  - done.
  - repeat constructor.
Qed.

Lemma insertionSort_sorts_with l :
  Permutation l (insertionSort less l) /\ sortedBy less (insertionSort less l).
Proof.
  unfold insertionSort, sortedBy.
  destruct (insertionSort_fold l []) as [Hp Hs]; [constructor|].
  split; [done|].
  by apply (StronglySorted_rev_flip (fun a b => less a b = false)).
Qed.
End InsertionSort.

Lemma insertionSort_sorts {A} : sortsSlices (@insertionSort A).
Proof. intros less l Hless. by apply insertionSort_sorts_with. Qed.

Lemma applyLimit_spec limit (l : list Project) :
  ((0 < limit < Z.of_nat (length l))%Z -> applyLimit limit l = take (Z.to_nat limit) l) /\
  ((limit <= 0)%Z -> applyLimit limit l = l) /\
  ((Z.of_nat (length l) <= limit)%Z -> applyLimit limit l = l).
Proof.
  unfold applyLimit.
  destruct (Z.ltb_spec 0 limit), (Z.ltb_spec limit (Z.of_nat (length l))); simpl;
    split_and!; intros; try done; lia.
Qed.

Lemma three_accessed_sorted records p1 p2 p3 a1 a2 a3 sorted :
  records !! ProjectInfo.ID (ProjectInfo p1) = Some a1 ->
  records !! ProjectInfo.ID (ProjectInfo p2) = Some a2 ->
  records !! ProjectInfo.ID (ProjectInfo p3) = Some a3 ->
  (LastAccessed a1 < LastAccessed a2 < LastAccessed a3)%Z ->
  Permutation [p1; p2; p3] sorted ->
  StronglySorted (recentFirst records) sorted ->
  sorted = [p3; p2; p1].
Proof.
  intros H1 H2 H3 Ht Hp Hs.
  apply (StronglySorted_unique_strong (recentFirst records)); [|done| |].
  - intros x y Hx Hy.
    rewrite <- Hp in Hx. unfold recentFirst.
    apply list_elem_of_In in Hx, Hy. simpl in Hx, Hy.
    destruct Hx as [<- | [<- | [<- | []]]]; destruct Hy as [<- | [<- | [<- | []]]];
      rewrite ?H1, ?H2, ?H3; intros; try done; lia.
  - unfold recentFirst. repeat constructor; rewrite ?H1, ?H2, ?H3; lia.
  - rewrite <- Hp. rewrite (Permutation_rev [p1; p2; p3]). done.
Qed.

Section Recent.
Variable toml_Decode : string -> Project -> result Project.
Variable json_Unmarshal : string -> result (list Project).
Variable json_UnmarshalRecords : string -> result (gmap string AccessRecord).
Variable sort_Slice : (Project -> Project -> bool) -> list Project -> list Project.
Hypothesis sort_Slice_sorts : sortsSlices sort_Slice.

(** C9: [GetRecentProjects] returns the discovered projects rearranged so
    that accessed projects come first, most recent first, and never
    accessed ones last; the list is cut to its first [limit] elements when
    [0 < limit < len], and is not cut when [limit <= 0]. With three
    projects accessed at [t1 < t2 < t3] and [limit = 2] the result is the
    project of [t3] followed by the project of [t2]. *)
Theorem GetRecentProjects_sorted w limit records homeDir projects gs :
  LoadAccessRecords json_UnmarshalRecords w = Ok records ->
  os_UserHomeDir w = Ok homeDir ->
  FindProjectsCached toml_Decode json_Unmarshal w
    [filepath_Join homeDir "projects"; filepath_Join homeDir "scratch"]
    = (Ok projects, gs) ->
  exists sorted,
    Permutation projects sorted /\
    StronglySorted (recentFirst records) sorted /\
    GetRecentProjects toml_Decode json_Unmarshal json_UnmarshalRecords sort_Slice limit w
      = (Ok (applyLimit limit sorted), gs) /\
    ((0 < limit < Z.of_nat (length sorted))%Z ->
     applyLimit limit sorted = take (Z.to_nat limit) sorted) /\
    ((limit <= 0)%Z -> applyLimit limit sorted = sorted) /\
    (forall p1 p2 p3 a1 a2 a3,
       Permutation [p1; p2; p3] projects ->
       records !! ProjectInfo.ID (ProjectInfo p1) = Some a1 ->
       records !! ProjectInfo.ID (ProjectInfo p2) = Some a2 ->
       records !! ProjectInfo.ID (ProjectInfo p3) = Some a3 ->
       (LastAccessed a1 < LastAccessed a2 < LastAccessed a3)%Z ->
       limit = 2%Z ->
       applyLimit limit sorted = [p3; p2]).
Proof.
  intros Hrec Hhome Hfind.
  destruct (sort_Slice_sorts (recentLess records) projects
              (recentLess_strictWeakOrder records)) as [Hperm Hsorted].
  apply sortedBy_recentFirst in Hsorted.
  exists (sort_Slice (recentLess records) projects). split_and!; try done.
  - unfold GetRecentProjects. by rewrite Hrec, Hhome, Hfind.
  - apply applyLimit_spec.
  - apply applyLimit_spec.
  - intros p1 p2 p3 a1 a2 a3 Hp H1 H2 H3 Ht ->.
    rewrite (three_accessed_sorted records p1 p2 p3 a1 a2 a3
               (sort_Slice (recentLess records) projects) H1 H2 H3 Ht);
      [reflexivity| |done].
    by rewrite Hp.
Qed.
End Recent.

(** ** The theorems at the sample machine *)

Lemma FindProjects_skips_malformed_witness :
  length (filter (fun pe => isDescriptor pe = true)
            (rootEntries freshWorld "/home/u/projects")) = 3 /\
  FindProjects sampleDecode freshWorld ["/home/u/projects"; "/nonexistent"] =
    Ok (validEntities sampleDecode
          (flat_map (rootEntries freshWorld) ["/home/u/projects"; "/nonexistent"])) /\
  length (validEntities sampleDecode
            (flat_map (rootEntries freshWorld) ["/home/u/projects"; "/nonexistent"])) = 2.
Proof.
  split; [vm_compute; reflexivity|]. split; [|vm_compute; reflexivity].
  apply FindProjects_skips_malformed.
  repeat constructor; vm_compute; reflexivity.
Defined.

Lemma FindProjects_aborts_on_io_error_witness :
  exists pre root post err,
    ["/home/u/projects"; "/home/u/scratch"] = pre ++ root :: post /\
    Forall (fun root => rootError lockedWorld root = None) pre /\
    rootMissing lockedWorld root = false /\
    rootError lockedWorld root = Some err /\
    FindProjects sampleDecode lockedWorld ["/home/u/projects"; "/home/u/scratch"] = Err err.
Proof.
  apply FindProjects_aborts_on_io_error.
  apply Exists_cons_tl, Exists_cons_hd. vm_compute. discriminate.
Defined.

Lemma FindProjectsCached_read_path_witness :
  FindProjectsCached sampleDecode sampleUnmarshal (cachedWorld 0 snapshot_json)
    ["/home/u/projects"] = (Ok snapshotProjects, []) /\
  (FindProjectsCached sampleDecode sampleUnmarshal (cachedWorld 0 "garbage")
     ["/home/u/projects"]).1 =
    FindProjects sampleDecode (cachedWorld 0 "garbage") ["/home/u/projects"] /\
  (FindProjectsCached sampleDecode sampleUnmarshal freshWorld ["/home/u/projects"]).1 =
    FindProjects sampleDecode freshWorld ["/home/u/projects"].
Proof.
  split; [|split].
  - apply FindProjectsCached_read_path; vm_compute; reflexivity.
  - apply FindProjectsCached_read_path. right. eexists. vm_compute. reflexivity.
  - apply FindProjectsCached_read_path. left. vm_compute. reflexivity.
Defined.

Lemma IsCacheValid_iff_witness :
  IsCacheValid (cachedWorld 0 snapshot_json) = true /\
  IsCacheValid
    (set_now (now freshWorld + 0) (SaveToCache sampleMarshal [] freshWorld).2) = true /\
  IsCacheValid
    (set_now (now freshWorld + CacheMaxAge) (SaveToCache sampleMarshal [] freshWorld).2)
    = false.
Proof.
  destruct (IsCacheValid_iff sampleMarshal (cachedWorld 0 snapshot_json)) as [[_ H1] _].
  destruct (IsCacheValid_iff sampleMarshal freshWorld) as [_ H2].
  split; [|split].
  - apply H1. exists cacheFileName. eexists.
    split; [vm_compute; reflexivity|]. split; [vm_compute; reflexivity|].
    vm_compute. reflexivity.
  - rewrite (H2 [] (SaveToCache sampleMarshal [] freshWorld).2 0%Z);
      vm_compute; reflexivity.
  - rewrite (H2 [] (SaveToCache sampleMarshal [] freshWorld).2 CacheMaxAge);
      vm_compute; reflexivity.
Defined.

Lemma GetRecentProjects_sorted_witness :
  exists sorted,
    StronglySorted (recentFirst sampleRecords) sorted /\
    (GetRecentProjects sampleDecode sampleUnmarshal sampleUnmarshalRecords
       (@insertionSort Project) 2 (cachedWorld (10 * Minute) snapshot_json)).1
    = Ok (applyLimit 2 sorted) /\
    length sorted = 4 /\
    length (applyLimit 2 sorted) = 2.
Proof.
  edestruct (GetRecentProjects_sorted sampleDecode sampleUnmarshal sampleUnmarshalRecords
               (@insertionSort Project) insertionSort_sorts
               (cachedWorld (10 * Minute) snapshot_json) 2 sampleRecords "/home/u")
    as (sorted & Hperm & Hsorted & Hget & Htake & _).
  - vm_compute. reflexivity.
  - vm_compute. reflexivity.
  - vm_compute. reflexivity.
  - exists sorted. split; [exact Hsorted|]. split; [by rewrite Hget|].
    apply Permutation_length in Hperm. simpl in Hperm. split; [done|].
    rewrite Htake by (rewrite <- Hperm; lia). rewrite length_take. lia.
Defined.

(** * Further properties of the migration and the accessors *)

(** X1: a descriptor with no legacy value (no [[ownership]].primary, no
    [[client]].end_client or intermediary, no DataKai link under [[links]])
    is left exactly as decoded. *)
Theorem migrateSchema_new_schema_only p :
  LegacyOwnership.Primary (LegacyOwnership p) = "" ->
  LegacyClient.EndClient (LegacyClient p) = "" ->
  LegacyClient.Intermediary (LegacyClient p) = "" ->
  Links.ScriptoriumProject (Links p) = "" ->
  Links.ConduitGraph (Links p) = "" ->
  migrateSchema p = p.
Proof.
  intros H1 H2 H3 H4 H5. unfold migrateSchema. by rewrite H1, H2, H3, H4, H5.
Qed.

Lemma migrateSchema_new_schema_only_witness :
  migrateSchema (decodedIn modernDecoded) = decodedIn modernDecoded.
Proof. apply migrateSchema_new_schema_only; vm_compute; reflexivity. Defined.

(** X2: migration writes only into [Consultant], [DataKai] and the
    [migrated] flag. The path, the core sections and both legacy sections
    are unchanged (the DataKai links stay under [[links]] as well), and so
    are the extension fields that have no legacy source. *)
Theorem migrateSchema_frame p :
  (Path (migrateSchema p) = Path p /\
   ProjectInfo (migrateSchema p) = ProjectInfo p /\
   Tech (migrateSchema p) = Tech p /\
   Dates (migrateSchema p) = Dates p /\
   Links (migrateSchema p) = Links p /\
   Notes (migrateSchema p) = Notes p /\
   Tmux (migrateSchema p) = Tmux p /\
   Context (migrateSchema p) = Context p /\
   LegacyOwnership (migrateSchema p) = LegacyOwnership p /\
   LegacyClient (migrateSchema p) = LegacyClient p) /\
  (Consultant.DeliverableType (Consultant (migrateSchema p)) =
     Consultant.DeliverableType (Consultant p) /\
   Consultant.Billable (Consultant (migrateSchema p)) = Consultant.Billable (Consultant p) /\
   Consultant.RateType (Consultant (migrateSchema p)) = Consultant.RateType (Consultant p)) /\
  (DataKai.Protocols (DataKai (migrateSchema p)) = DataKai.Protocols (DataKai p) /\
   DataKai.DKOSVersion (DataKai (migrateSchema p)) = DataKai.DKOSVersion (DataKai p) /\
   DataKai.ProductCategory (DataKai (migrateSchema p)) = DataKai.ProductCategory (DataKai p) /\
   DataKai.RevenueModel (DataKai (migrateSchema p)) = DataKai.RevenueModel (DataKai p) /\
   DataKai.Maturity (DataKai (migrateSchema p)) = DataKai.Maturity (DataKai p)).
Proof. migrate_cases p; vm_compute; split_and!; reflexivity. Qed.

(** X3: the [migrated] flag is raised exactly when some legacy value is
    present; otherwise it keeps its value. *)
Theorem migrateSchema_migrated p :
  migrated (migrateSchema p) =
  migrated p
  || nonempty (LegacyOwnership.Primary (LegacyOwnership p))
  || nonempty (LegacyClient.EndClient (LegacyClient p))
  || nonempty (LegacyClient.Intermediary (LegacyClient p))
  || nonempty (Links.ScriptoriumProject (Links p))
  || nonempty (Links.ConduitGraph (Links p)).
Proof.
  destruct (migrated p) eqn:Hm; migrate_cases p; simpl in Hm; subst; vm_compute; reflexivity.
Qed.

(** X4: a legacy intermediary becomes the partner and makes the client type
    [partner]; an end client without intermediary makes it [direct]. *)
Theorem migrateSchema_client_type p :
  (LegacyClient.Intermediary (LegacyClient p) <> "" ->
   Consultant.ClientType (Consultant (migrateSchema p)) = "partner" /\
   Consultant.Partner (Consultant (migrateSchema p)) =
   LegacyClient.Intermediary (LegacyClient p)) /\
  (LegacyClient.Intermediary (LegacyClient p) = "" ->
   LegacyClient.EndClient (LegacyClient p) <> "" ->
   Consultant.ClientType (Consultant (migrateSchema p)) = "direct").
Proof.
  rewrite migrateSchema_ClientType, migrateSchema_Partner. split.
  - intros H. by apply nonempty_true in H as ->.
  - intros H1 H2. apply nonempty_false in H1 as ->. by apply nonempty_true in H2 as ->.
Qed.

Lemma migrateSchema_client_type_witness :
  (Consultant.ClientType (Consultant (migrateSchema (decodedIn partialDecoded))) = "partner" /\
   Consultant.Partner (Consultant (migrateSchema (decodedIn partialDecoded))) = "West Monroe") /\
  Consultant.ClientType (Consultant (migrateSchema (decodedIn conflictDecoded))) = "direct".
Proof.
  split.
  - apply (migrateSchema_client_type (decodedIn partialDecoded)). vm_compute. discriminate.
  - apply (migrateSchema_client_type (decodedIn conflictDecoded)); vm_compute;
      [reflexivity|discriminate].
Defined.

(** X5: the two legacy sources of the partner are ranked differently before
    and after migration. On a migrated entity [GetPartner] answers the
    legacy intermediary whenever there is one; on the struct as decoded,
    with no new-schema partner, it answers the first legacy partner. *)
Theorem GetPartner_migrated p :
  (LegacyClient.Intermediary (LegacyClient p) <> "" ->
   GetPartner (migrateSchema p) = LegacyClient.Intermediary (LegacyClient p)) /\
  (forall first rest,
     Consultant.Partner (Consultant p) = "" ->
     LegacyOwnership.Partners (LegacyOwnership p) = first :: rest ->
     GetPartner p = first).
Proof.
  split.
  - intros H. unfold GetPartner. rewrite migrateSchema_Partner.
    pose proof H as H'. apply nonempty_true in H' as ->.
    by apply nonempty_true in H as ->.
  - intros first rest H1 H2. unfold GetPartner. by rewrite H1, H2.
Qed.

Lemma GetPartner_migrated_witness :
  GetPartner (migrateSchema (decodedIn intermediaryDecoded)) = "Accenture" /\
  GetPartner (decodedIn intermediaryDecoded) = "westmonroe".
Proof.
  destruct (GetPartner_migrated (decodedIn intermediaryDecoded)) as [H1 H2]. split.
  - rewrite H1; [reflexivity|]. vm_compute. discriminate.
  - apply (H2 "westmonroe" ["deloitte"]); reflexivity.
Defined.

(** X6: when a legacy section is present, the accessors of the fields it
    feeds answer the legacy values on the migrated entity, empty or not. *)
Theorem accessors_answer_legacy p :
  (LegacyOwnership.Primary (LegacyOwnership p) <> "" ->
   GetLicenseModel (migrateSchema p) = LegacyOwnership.LicenseModel (LegacyOwnership p)) /\
  (LegacyClient.EndClient (LegacyClient p) <> "" \/
   LegacyClient.Intermediary (LegacyClient p) <> "" ->
   GetClientName (migrateSchema p) = LegacyClient.EndClient (LegacyClient p) /\
   GetMyRole (migrateSchema p) = LegacyClient.MyRole (LegacyClient p)).
Proof.
  unfold GetLicenseModel, GetClientName, GetMyRole.
  destruct (migrateSchema_reads_only p) as (-> & -> & _).
  rewrite migrateSchema_LicenseModel, migrateSchema_ClientName, migrateSchema_MyRole.
  split.
  - intros H. apply nonempty_true in H as ->.
    by destruct (nonempty (LegacyOwnership.LicenseModel _)).
  - intros H.
    assert (nonempty (LegacyClient.EndClient (LegacyClient p))
            || nonempty (LegacyClient.Intermediary (LegacyClient p)) = true) as ->.
    { destruct H as [H|H]; apply nonempty_true in H as ->; [done|apply orb_true_r]. }
    split.
    + by destruct (nonempty (LegacyClient.EndClient _)).
    + by destruct (nonempty (LegacyClient.MyRole _)).
Qed.

Lemma accessors_answer_legacy_witness :
  GetLicenseModel (migrateSchema (decodedIn partialDecoded)) = "" /\
  GetClientName (migrateSchema (decodedIn partialDecoded)) = "" /\
  GetMyRole (migrateSchema (decodedIn intermediaryDecoded)) = "lead".
Proof.
  destruct (accessors_answer_legacy (decodedIn partialDecoded)) as [H1 H2].
  destruct (accessors_answer_legacy (decodedIn intermediaryDecoded)) as [_ H3].
  split; [|split].
  - rewrite H1; [reflexivity|]. vm_compute. discriminate.
  - destruct H2 as [-> _]; [right; vm_compute; discriminate|reflexivity].
  - destruct H3 as [_ ->]; [left; vm_compute; discriminate|reflexivity].
Defined.

(** X7: for a field the new schema leaves empty, the accessor gives the
    same answer before and after migration. *)
Theorem accessors_stable_on_legacy_descriptor p :
  (Consultant.Ownership (Consultant p) = "" -> GetOwner (migrateSchema p) = GetOwner p) /\
  (Consultant.LicenseModel (Consultant p) = "" ->
   GetLicenseModel (migrateSchema p) = GetLicenseModel p) /\
  (Consultant.ClientName (Consultant p) = "" ->
   GetClientName (migrateSchema p) = GetClientName p) /\
  (Consultant.MyRole (Consultant p) = "" -> GetMyRole (migrateSchema p) = GetMyRole p).
Proof.
  unfold GetOwner, GetLicenseModel, GetClientName, GetMyRole.
  destruct (migrateSchema_reads_only p) as (-> & -> & _).
  rewrite migrateSchema_Ownership, migrateSchema_LicenseModel, migrateSchema_ClientName,
    migrateSchema_MyRole.
  split_and!; intros ->; cbn [nonempty String.eqb negb];
    repeat match goal with
           | |- context [if ?b then _ else _] => destruct b eqn:?
           end; try done.
  all: repeat match goal with
         | H : nonempty _ = false |- _ => apply nonempty_false in H
         end; congruence.
Qed.

Lemma accessors_stable_on_legacy_descriptor_witness :
  GetOwner (migrateSchema (decodedIn alphaDecoded)) = GetOwner (decodedIn alphaDecoded) /\
  GetLicenseModel (migrateSchema (decodedIn alphaDecoded)) =
    GetLicenseModel (decodedIn alphaDecoded) /\
  GetClientName (migrateSchema (decodedIn intermediaryDecoded)) =
    GetClientName (decodedIn intermediaryDecoded) /\
  GetMyRole (migrateSchema (decodedIn intermediaryDecoded)) =
    GetMyRole (decodedIn intermediaryDecoded).
Proof.
  destruct (accessors_stable_on_legacy_descriptor (decodedIn alphaDecoded))
    as (H1 & H2 & _).
  destruct (accessors_stable_on_legacy_descriptor (decodedIn intermediaryDecoded))
    as (_ & _ & H3 & H4).
  split_and!; [apply H1|apply H2|apply H3|apply H4]; reflexivity.
Defined.

(** X8: a legacy partner list loses all but its first element: with a legacy
    owner, no intermediary and a non-empty first partner, [GetPartners] on
    the migrated entity is the one-element list of the first partner, while
    on the struct as decoded it is the whole list. *)
Theorem GetPartners_migrated p first rest :
  LegacyOwnership.Primary (LegacyOwnership p) <> "" ->
  LegacyOwnership.Partners (LegacyOwnership p) = first :: rest ->
  first <> "" ->
  LegacyClient.Intermediary (LegacyClient p) = "" ->
  GetPartners (migrateSchema p) = [first] /\
  (Consultant.Partner (Consultant p) = "" -> GetPartners p = first :: rest).
Proof.
  intros H1 H2 H3 H4. unfold GetPartners.
  rewrite migrateSchema_Partner, H2, H4.
  apply nonempty_true in H1 as ->. cbn [nonempty String.eqb negb].
  pose proof H3 as H3'. apply nonempty_true in H3' as ->.
  split; [done|]. intros ->. done.
Qed.

Lemma GetPartners_migrated_witness :
  GetPartners (migrateSchema (decodedIn partnersDecoded)) = ["westmonroe"] /\
  GetPartners (decodedIn partnersDecoded) = ["westmonroe"; "deloitte"].
Proof.
  destruct (GetPartners_migrated (decodedIn partnersDecoded) "westmonroe" ["deloitte"])
    as [H1 H2]; [vm_compute; discriminate|reflexivity|discriminate|reflexivity|].
  split; [exact H1|apply H2; reflexivity].
Defined.

(** * Further properties of discovery *)

Section DiscoveryMore.
Variable toml_Decode : string -> Project -> result Project.

Lemma scan_from l acc :
  scan toml_Decode l acc =
  ((acc ++ (scan toml_Decode l []).1), (scan toml_Decode l []).2).
Proof.
  revert acc. induction l as [|pe l IH]; intros acc; simpl.
  - by rewrite app_nil_r.
  - destruct (ioError pe); simpl; [by rewrite app_nil_r|].
    rewrite IH. rewrite (IH (if isDescriptor pe then _ else _)).
    destruct (isDescriptor pe); [|done].
    destruct (loadDescriptor toml_Decode pe); [|done].
    simpl. by rewrite <- app_assoc.
Qed.

Lemma FindProjects_loop_from w rootDirs acc :
  FindProjects_loop toml_Decode w rootDirs acc =
  match FindProjects toml_Decode w rootDirs with
  | Ok l => Ok (acc ++ l)
  | Err e => Err e
  end.
Proof.
  unfold FindProjects. revert acc.
  induction rootDirs as [|root rest IH]; intros acc; simpl.
  - by rewrite app_nil_r.
  - destruct (os_IsNotExist (os_Stat_err w root)); [apply IH|].
    rewrite !Walk_scan. rewrite scan_from.
    destruct (scan toml_Decode _ []) as [l1 [e|]]; simpl; [done|].
    rewrite IH. rewrite (IH l1).
    destruct (FindProjects_loop toml_Decode w rest []); [|done].
    by rewrite app_assoc.
Qed.

Lemma FindProjects_loop_app w r1 r2 acc :
  FindProjects_loop toml_Decode w (r1 ++ r2) acc =
  match FindProjects_loop toml_Decode w r1 acc with
  | Ok l1 => FindProjects_loop toml_Decode w r2 l1
  | Err e => Err e
  end.
Proof.
  revert acc. induction r1 as [|root rest IH]; intros acc; simpl; [done|].
  destruct (os_IsNotExist (os_Stat_err w root)); [apply IH|].
  destruct (Walk w root _ acc) as [l [e|]]; [done|]. apply IH.
Qed.

(** X9: scanning a concatenation of root lists is scanning the first list
    and then the second: the first error wins, and otherwise the entities of
    the two scans are appended, duplicates included. *)
Theorem FindProjects_app w r1 r2 :
  FindProjects toml_Decode w (r1 ++ r2) =
  match FindProjects toml_Decode w r1 with
  | Err e => Err e
  | Ok l1 =>
      match FindProjects toml_Decode w r2 with
      | Err e => Err e
      | Ok l2 => Ok (l1 ++ l2)
      end
  end.
Proof.
  unfold FindProjects at 1. rewrite FindProjects_loop_app.
  fold (FindProjects toml_Decode w r1).
  destruct (FindProjects toml_Decode w r1) as [l1|e]; [|done].
  apply FindProjects_loop_from.
Qed.

(** X10: a root that does not exist contributes no entity and no error:
    the scan is the scan of the remaining roots. *)
Theorem FindProjects_missing_root w pre root post :
  rootMissing w root = true ->
  FindProjects toml_Decode w (pre ++ root :: post) =
  FindProjects toml_Decode w (pre ++ post).
Proof.
  intros Hmiss. rewrite !FindProjects_app.
  destruct (FindProjects toml_Decode w pre) as [l1|e]; [|done].
  unfold FindProjects at 1. simpl. unfold rootMissing in Hmiss. by rewrite Hmiss.
Qed.

(** X11: when the walk meets no I/O error, [FindProjects] returns at most
    one entity per descriptor file, and exactly one per descriptor file when
    every descriptor loads. *)
Theorem FindProjects_count w rootDirs :
  Forall (fun root => rootError w root = None) rootDirs ->
  exists l,
    FindProjects toml_Decode w rootDirs = Ok l /\
    length l <= length (filter (fun pe => isDescriptor pe = true)
                          (flat_map (rootEntries w) rootDirs)) /\
    (Forall (fun pe => isDescriptor pe = true -> is_Some (loadDescriptor toml_Decode pe))
       (flat_map (rootEntries w) rootDirs) ->
     length l = length (filter (fun pe => isDescriptor pe = true)
                          (flat_map (rootEntries w) rootDirs))).
Proof.
  intros Hclean.
  exists (validEntities toml_Decode (flat_map (rootEntries w) rootDirs)). split.
  { unfold FindProjects. by rewrite FindProjects_loop_clean. }
  unfold validEntities. generalize (flat_map (rootEntries w) rootDirs). intros l.
  split.
  - generalize (filter (fun pe => isDescriptor pe = true) l). clear l.
    intros l. induction l as [|pe l IH]; simpl; [done|].
    destruct (loadDescriptor toml_Decode pe); simpl;
      [apply le_n_S, IH|apply Nat.le_le_succ_r, IH].
  - intros Hall. induction l as [|pe l IH]; [done|].
    apply Forall_cons in Hall as [Hpe Hall].
    destruct (isDescriptor pe) eqn:Hd.
    + rewrite filter_cons_True by done. simpl.
      destruct (Hpe eq_refl) as [project ->]. simpl. f_equal. by apply IH.
    + rewrite filter_cons_False by (by rewrite Hd). by apply IH.
Qed.

End DiscoveryMore.

Lemma FindProjects_missing_root_witness :
  FindProjects sampleDecode freshWorld ["/home/u/projects"; "/nonexistent"; "/home/u/scratch"] =
  FindProjects sampleDecode freshWorld ["/home/u/projects"; "/home/u/scratch"].
Proof.
  apply (FindProjects_missing_root sampleDecode freshWorld ["/home/u/projects"]
           "/nonexistent" ["/home/u/scratch"]).
  vm_compute. reflexivity.
Defined.

Lemma FindProjects_count_witness :
  exists l,
    FindProjects sampleDecode freshWorld ["/home/u/projects"; "/home/u/scratch"] = Ok l /\
    length l <= 5 /\
    (exists l', FindProjects sampleDecode freshWorld ["/home/u/scratch"] = Ok l' /\
                length l' = 2).
Proof.
  destruct (FindProjects_count sampleDecode freshWorld ["/home/u/projects"; "/home/u/scratch"])
    as (l & Hl & Hle & _); [repeat constructor; vm_compute; reflexivity|].
  destruct (FindProjects_count sampleDecode freshWorld ["/home/u/scratch"])
    as (l' & Hl' & _ & Heq); [repeat constructor; vm_compute; reflexivity|].
  exists l. split; [exact Hl|]. split; [exact Hle|].
  exists l'. split; [exact Hl'|]. rewrite Heq; [reflexivity|].
  eassert (Hlist : flat_map (rootEntries freshWorld) ["/home/u/scratch"] = _)
    by (vm_compute; reflexivity).
  rewrite Hlist.
  repeat (constructor;
          [intros Hd; first [vm_compute in Hd; discriminate Hd
                            |eexists; vm_compute; reflexivity]|]).
  constructor.
Defined.

(** * Further properties of the snapshot cache *)

Lemma FindProjects_loop_trees toml_Decode w1 w2 rootDirs acc :
  trees w1 = trees w2 ->
  FindProjects_loop toml_Decode w1 rootDirs acc = FindProjects_loop toml_Decode w2 rootDirs acc.
Proof.
  intros Ht. revert acc. induction rootDirs as [|root rest IH]; intros acc; simpl; [done|].
  unfold Walk, os_Stat_err, os_Lstat. rewrite Ht.
  destruct (os_IsNotExist _); [apply IH|].
  destruct (walk _ _ _ acc) as [l [[]|]]; try done; apply IH.
Qed.

Lemma IsCacheValid_saved json_Marshal projects w w' elapsed :
  SaveToCache json_Marshal projects w = (None, w') ->
  IsCacheValid (set_now (now w + elapsed) w') = (elapsed <? CacheMaxAge)%Z.
Proof.
  intros Hsave.
  destruct (SaveToCache_ok _ _ _ _ Hsave) as (cacheFile & text & Hc & _ & ->).
  unfold IsCacheValid. rewrite GetCacheFile_set_now, GetCacheFile_set_files, Hc.
  unfold os_Stat, time_Since. cbn [files set_now set_files now].
  rewrite lookup_insert_eq. cbn [ModTime].
  rewrite time_Sub_below by apply CacheMaxAge_in_range.
  f_equal. lia.
Qed.

Lemma filepath_Join_inj dir a b : filepath_Join dir a = filepath_Join dir b -> a = b.
Proof.
  unfold filepath_Join. induction dir as [|c dir IH]; cbn.
  - intros H. by injection H.
  - intros H. injection H as H. by apply IH.
Qed.

Lemma cache_access_paths w cacheFile accessFile :
  GetCacheFile w = Ok cacheFile -> GetAccessFile w = Ok accessFile ->
  cacheFile <> accessFile.
Proof.
  unfold GetCacheFile, GetAccessFile. destruct (os_UserHomeDir w); simpl; [|done].
  destruct (os_MkdirAll w _); [done|].
  intros [= <-] [= <-] H. by apply filepath_Join_inj in H.
Qed.

Lemma InvalidateCache_invalid w w' :
  write_errno w <> Some ENOENT ->
  InvalidateCache w = (None, w') -> IsCacheValid w' = false.
Proof.
  unfold InvalidateCache, IsCacheValid, os_Remove, os_Stat.
  intros Hen. destruct (GetCacheFile w) as [cacheFile|] eqn:Hc; [|done].
  destruct (files w !! cacheFile) eqn:Hf; simpl.
  - destruct (write_errno w) as [[]|]; simpl; try done. intros [= <-].
    rewrite GetCacheFile_set_files, Hc. cbn [files set_files].
    by rewrite lookup_delete_eq.
  - intros [= <-]. by rewrite Hc, Hf.
Qed.

(** X12: after [InvalidateCache] returns without error the snapshot is not
    valid (given that a failing removal of an existing file does not report
    the file as missing); and invalidating when there is no snapshot file
    succeeds and changes nothing. *)
Theorem InvalidateCache_clears w :
  (forall w',
     write_errno w <> Some ENOENT ->
     InvalidateCache w = (None, w') -> IsCacheValid w' = false) /\
  (forall cacheFile,
     GetCacheFile w = Ok cacheFile -> files w !! cacheFile = None ->
     InvalidateCache w = (None, w)).
Proof.
  split.
  - intros w'. apply InvalidateCache_invalid.
  - unfold InvalidateCache, os_Remove. intros cacheFile -> ->. done.
Qed.

Lemma InvalidateCache_clears_witness :
  IsCacheValid (cachedWorld 0 snapshot_json) = true /\
  IsCacheValid (InvalidateCache (cachedWorld 0 snapshot_json)).2 = false /\
  InvalidateCache freshWorld = (None, freshWorld).
Proof.
  split; [vm_compute; reflexivity|]. split.
  - apply (InvalidateCache_clears (cachedWorld 0 snapshot_json)).
    + vm_compute. discriminate.
    + vm_compute. reflexivity.
  - apply (InvalidateCache_clears freshWorld) with cacheFileName; vm_compute; reflexivity.
Defined.

Section CacheMore.
Variable toml_Decode : string -> Project -> result Project.
Variable json_Marshal : list Project -> result string.
Variable json_Unmarshal : string -> result (list Project).

Lemma LoadFromCache_after_save projects w w' text :
  SaveToCache json_Marshal projects w = (None, w') ->
  json_Marshal projects = Ok text ->
  forall t, LoadFromCache json_Unmarshal (set_now t w') = json_Unmarshal text.
Proof.
  intros Hsave Htext t.
  destruct (SaveToCache_ok _ _ _ _ Hsave) as (cacheFile & text' & Hc & Ht & ->).
  rewrite Htext in Ht. injection Ht as <-.
  unfold LoadFromCache. rewrite GetCacheFile_set_now, GetCacheFile_set_files, Hc.
  unfold os_ReadFile. cbn [files set_now set_files mbind result_bind].
  rewrite lookup_insert_eq. cbn [mbind result_bind].
  by destruct (json_Unmarshal text).
Qed.

(** X13: once [SaveToCache] has succeeded, every [FindProjectsCached] within
    the next five minutes returns what the saved text decodes to, whatever
    the roots, and starts no goroutine. *)
Theorem FindProjectsCached_after_save projects w w' text decoded elapsed rootDirs :
  SaveToCache json_Marshal projects w = (None, w') ->
  json_Marshal projects = Ok text ->
  json_Unmarshal text = Ok decoded ->
  (elapsed < CacheMaxAge)%Z ->
  FindProjectsCached toml_Decode json_Unmarshal (set_now (now w + elapsed) w') rootDirs
  = (Ok decoded, []).
Proof.
  intros Hsave Htext Hdec Hlt. unfold FindProjectsCached.
  rewrite (IsCacheValid_saved json_Marshal projects w w' elapsed Hsave).
  apply Z.ltb_lt in Hlt as ->.
  by rewrite (LoadFromCache_after_save projects w w' text Hsave Htext), Hdec.
Qed.

(** X14: [FindProjectsCached] starts a goroutine only after a successful
    live scan, and that goroutine saves exactly the list returned to the
    caller; a result served from the snapshot and an error start none, and
    an error is always the error of the live scan. *)
Theorem FindProjectsCached_goroutines w rootDirs :
  match FindProjectsCached toml_Decode json_Unmarshal w rootDirs with
  | (Err e, gs) => gs = [] /\ FindProjects toml_Decode w rootDirs = Err e
  | (Ok projects, gs) =>
      (gs = [] /\ IsCacheValid w = true /\ LoadFromCache json_Unmarshal w = Ok projects) \/
      (gs = [GoSaveToCache projects] /\ FindProjects toml_Decode w rootDirs = Ok projects)
  end.
Proof.
  unfold FindProjectsCached.
  destruct (IsCacheValid w); [destruct (LoadFromCache json_Unmarshal w); [by left|]|];
    destruct (FindProjects toml_Decode w rootDirs); simpl; by eauto.
Qed.

(** X15: the goroutine of [RebuildCacheAsync], run to completion on a
    machine where the cache directory is writable: if the scan fails the
    snapshot is left invalid (the old one was removed first); if the scan
    succeeds the snapshot is valid and holds the text of the scanned
    list. *)
Theorem RebuildCache_goroutine w rootDirs :
  write_errno w = None ->
  match FindProjects toml_Decode w rootDirs with
  | Err _ =>
      IsCacheValid (runGoroutine toml_Decode json_Marshal (GoRebuildCache rootDirs) w) = false
  | Ok projects =>
      forall cacheFile text,
        GetCacheFile w = Ok cacheFile -> json_Marshal projects = Ok text ->
        IsCacheValid (runGoroutine toml_Decode json_Marshal (GoRebuildCache rootDirs) w) = true /\
        LoadFromCache json_Unmarshal
          (runGoroutine toml_Decode json_Marshal (GoRebuildCache rootDirs) w)
        = json_Unmarshal text
  end.
Proof.
  intros Hw. unfold runGoroutine.
  assert (Hinv : (exists w1, InvalidateCache w = (None, w1) /\
            trees w1 = trees w /\ now w1 = now w /\ home w1 = home w /\
            mkdir_errno w1 = mkdir_errno w /\ write_errno w1 = None) \/
            (exists e, InvalidateCache w = (Some e, w) /\ GetCacheFile w = Err e)).
  { unfold InvalidateCache, os_Remove.
    destruct (GetCacheFile w) as [cacheFile|e]; [left|right; eauto].
    destruct (files w !! cacheFile); rewrite ?Hw; simpl; eauto 10. }
  destruct Hinv as [(w1 & Hinv & Ht & Hn & Hh & Hm & Hw1)|(e & Hinv & Hc)].
  - rewrite Hinv. cbn [snd].
    assert (Hfind : FindProjects toml_Decode w1 rootDirs = FindProjects toml_Decode w rootDirs).
    { by apply FindProjects_loop_trees. }
    assert (Hcf : GetCacheFile w1 = GetCacheFile w).
    { destruct w1, w. simpl in *. by subst. }
    rewrite Hfind. destruct (FindProjects toml_Decode w rootDirs) as [projects|e].
    + intros cacheFile text Hc Htext.
      destruct (SaveToCache json_Marshal projects w1) as [err w2] eqn:Hsave.
      assert (err = None) as ->.
      { unfold SaveToCache, os_WriteFile in Hsave.
        rewrite Hcf, Hc, Htext, Hw1 in Hsave. by injection Hsave as <- _. }
      cbn [snd]. split.
      * pose proof (IsCacheValid_saved json_Marshal projects w1 w2 0 Hsave) as H.
        rewrite Z.add_0_r in H.
        replace (set_now (now w1) w2) with w2 in H; [done|].
        destruct (SaveToCache_ok _ _ _ _ Hsave) as (? & ? & _ & _ & ->). by destruct w1.
      * pose proof (LoadFromCache_after_save projects w1 w2 text Hsave Htext (now w1)) as H.
        replace (set_now (now w1) w2) with w2 in H; [done|].
        destruct (SaveToCache_ok _ _ _ _ Hsave) as (? & ? & _ & _ & ->). by destruct w1.
    + apply (InvalidateCache_invalid w); [|done]. by rewrite Hw.
  - rewrite Hinv. cbn [snd].
    destruct (FindProjects toml_Decode w rootDirs) as [projects|e'].
    + intros cacheFile text Hcf. by rewrite Hc in Hcf.
    + unfold IsCacheValid. by rewrite Hc.
Qed.

End CacheMore.

Lemma FindProjectsCached_after_save_witness :
  FindProjectsCached sampleDecode sampleUnmarshal
    (set_now (now freshWorld + 0) (SaveToCache sampleMarshal snapshotProjects freshWorld).2)
    ["/home/u/projects"]
  = (Ok snapshotProjects, []).
Proof.
  apply (FindProjectsCached_after_save sampleDecode sampleMarshal sampleUnmarshal
           snapshotProjects freshWorld _ snapshot_json); vm_compute; reflexivity.
Defined.

Lemma RebuildCache_goroutine_witness :
  IsCacheValid
    (runGoroutine sampleDecode sampleMarshal
       (GoRebuildCache ["/home/u/projects"; "/home/u/scratch"])
       (set_files (files (cachedWorld 0 snapshot_json)) lockedWorld)) = false /\
  IsCacheValid
    (runGoroutine sampleDecode sampleMarshal (GoRebuildCache ["/home/u/projects"]) freshWorld)
  = true.
Proof.
  split.
  - apply (RebuildCache_goroutine sampleDecode sampleMarshal sampleUnmarshal
             (set_files (files (cachedWorld 0 snapshot_json)) lockedWorld)
             ["/home/u/projects"; "/home/u/scratch"]).
    vm_compute. reflexivity.
  - pose proof (RebuildCache_goroutine sampleDecode sampleMarshal sampleUnmarshal
                  freshWorld ["/home/u/projects"] eq_refl) as H.
    vm_compute in H. vm_compute. 
    destruct (H cacheFileName snapshot_json eq_refl eq_refl) as [Hv _]. exact Hv.
Defined.

(** * Further properties of access tracking *)

Lemma GetAccessFile_set_files fs w : GetAccessFile (set_files fs w) = GetAccessFile w.
Proof. reflexivity. Qed.

Lemma applyLimit_length limit (l : list Project) :
  Z.of_nat (length (applyLimit limit l)) =
  if (0 <? limit)%Z then Z.min limit (Z.of_nat (length l)) else Z.of_nat (length l).
Proof.
  unfold applyLimit.
  destruct (Z.ltb_spec 0 limit), (Z.ltb_spec limit (Z.of_nat (length l))); simpl;
    rewrite ?length_take; lia.
Qed.

Lemma insertionSort_length {A} (less : A -> A -> bool) l :
  length (insertionSort less l) = length l.
Proof.
  unfold insertionSort. rewrite length_rev.
  assert (H : forall rp, length (fold_left (fun rp x => insertLeft less x rp) l rp)
                         = length rp + length l).
  { induction l as [|x l IH]; intros rp; simpl; [lia|].
    rewrite IH. rewrite <- (Permutation_length (insertLeft_Permutation less x rp)).
    simpl. lia. }
  by rewrite H.
Qed.

Lemma recentFirst_after_unaccessed records x y :
  accessed records x = false -> recentFirst records x y -> accessed records y = false.
Proof.
  unfold accessed, recentFirst.
  destruct (records !! ProjectInfo.ID (ProjectInfo x)) eqn:Hx.
  - intros H. apply bool_decide_eq_false in H. by destruct H.
  - intros _. by destruct (records !! ProjectInfo.ID (ProjectInfo y)).
Qed.

Lemma accessed_prefix records l k :
  StronglySorted (recentFirst records) l ->
  k <= length (List.filter (accessed records) l) ->
  Forall (fun p => accessed records p = true) (take k l).
Proof.
  intros Hs. revert k. induction Hs as [|x l Hs IH Hx]; intros k Hk.
  - by rewrite take_nil.
  - destruct k as [|k]; [constructor|]. simpl in *.
    destruct (accessed records x) eqn:Hax.
    + constructor; [done|]. apply IH. simpl in Hk. lia.
    + exfalso.
      assert (List.filter (accessed records) l = []) as Hnil.
      { clear -Hx Hax. induction Hx as [|y l Hy _ IH]; [done|]. simpl.
        by rewrite (recentFirst_after_unaccessed records x y Hax Hy). }
      rewrite Hnil in Hk. simpl in Hk. lia.
Qed.

Lemma filter_length_Permutation {A} (f : A -> bool) l1 l2 :
  Permutation l1 l2 -> length (List.filter f l1) = length (List.filter f l2).
Proof.
  induction 1; simpl; try done.
  - destruct (f x); simpl; congruence.
  - destruct (f x), (f y); simpl; congruence.
  - congruence.
Qed.

(** X16: the comparison closure of [GetRecentProjects] is a strict weak
    ordering, as [sort.Slice] requires: irreflexive, transitive, and with a
    transitive incomparability; an accessed project is less than every
    never accessed one. *)
Theorem recentLess_is_strict_weak_order records :
  (forall p, recentLess records p p = false) /\
  (forall p q r,
     recentLess records p q = true -> recentLess records q r = true ->
     recentLess records p r = true) /\
  (forall p q r,
     recentLess records p q = false -> recentLess records q r = false ->
     recentLess records p r = false) /\
  (forall p q,
     is_Some (records !! ProjectInfo.ID (ProjectInfo p)) ->
     records !! ProjectInfo.ID (ProjectInfo q) = None ->
     recentLess records p q = true /\ recentLess records q p = false).
Proof.
  destruct (recentLess_strictWeakOrder records) as (H1 & H2 & H3).
  split_and!; [done..|].
  intros p q [a Ha] Hq. unfold recentLess. by rewrite Ha, Hq.
Qed.

Lemma recentLess_is_strict_weak_order_witness :
  recentLess sampleRecords (migrateSchema (decodedIn alphaDecoded))
    (migrateSchema (decodedIn orphanDecoded)) = true /\
  recentLess sampleRecords (migrateSchema (decodedIn orphanDecoded))
    (migrateSchema (decodedIn alphaDecoded)) = false.
Proof.
  apply (recentLess_is_strict_weak_order sampleRecords).
  - eexists. vm_compute. reflexivity.
  - vm_compute. reflexivity.
Defined.

Section AccessMore.
Variable toml_Decode : string -> Project -> result Project.
Variable json_Marshal : list Project -> result string.
Variable json_Unmarshal : string -> result (list Project).
Variable json_MarshalRecords : gmap string AccessRecord -> result string.
Variable json_UnmarshalRecords : string -> result (gmap string AccessRecord).
Variable sort_Slice : (Project -> Project -> bool) -> list Project -> list Project.

(** X17: a missing access file is an empty mapping, not an error. *)
Theorem LoadAccessRecords_missing w accessFile :
  GetAccessFile w = Ok accessFile ->
  files w !! accessFile = None ->
  LoadAccessRecords json_UnmarshalRecords w = Ok ∅.
Proof.
  intros Ha Hf. unfold LoadAccessRecords, os_ReadFile. rewrite Ha.
  cbn [mbind result_bind]. by rewrite Hf.
Qed.

Lemma SaveAccessRecords_ok records w w' :
  SaveAccessRecords json_MarshalRecords records w = (None, w') ->
  exists accessFile text,
    GetAccessFile w = Ok accessFile /\ json_MarshalRecords records = Ok text /\
    w' = set_files (<[accessFile := {| ModTime := now w; data := Content text |}]> (files w)) w.
Proof.
  unfold SaveAccessRecords, os_WriteFile.
  destruct (GetAccessFile w) as [accessFile|]; [|done].
  destruct (json_MarshalRecords records) as [text|]; [|done].
  destruct (write_errno w); [done|]. intros [= <-]. eauto.
Qed.

(** X18: [RecordAccess] is an upsert. When it succeeds and the written text
    decodes back to the map that was encoded, reloading gives the previous
    mapping with the entry of [projectID] replaced by a record of the given
    path stamped with the current time; every other entry is as before. *)
Theorem RecordAccess_upsert projectID projectPath w w' before :
  LoadAccessRecords json_UnmarshalRecords w = Ok before ->
  (forall text,
     json_MarshalRecords
       (<[projectID := {| ProjectID := projectID; ProjectPath := projectPath;
                          LastAccessed := now w |}]> before) = Ok text ->
     json_UnmarshalRecords text =
     Ok (<[projectID := {| ProjectID := projectID; ProjectPath := projectPath;
                           LastAccessed := now w |}]> before)) ->
  RecordAccess json_MarshalRecords json_UnmarshalRecords projectID projectPath w = (None, w') ->
  exists after,
    LoadAccessRecords json_UnmarshalRecords w' = Ok after /\
    after !! projectID =
      Some {| ProjectID := projectID; ProjectPath := projectPath; LastAccessed := now w |} /\
    (forall id, id <> projectID -> after !! id = before !! id).
Proof.
  intros Hload Hjson. unfold RecordAccess. rewrite Hload. intros Hsave.
  destruct (SaveAccessRecords_ok _ _ _ Hsave) as (accessFile & text & Ha & Ht & ->).
  exists (<[projectID := {| ProjectID := projectID; ProjectPath := projectPath;
                            LastAccessed := now w |}]> before).
  split_and!; [|apply lookup_insert_eq|by intros; apply lookup_insert_ne].
  unfold LoadAccessRecords, os_ReadFile. rewrite GetAccessFile_set_files, Ha.
  cbn [mbind result_bind files set_files]. rewrite lookup_insert_eq.
  by apply Hjson.
Qed.

(** X19: the snapshot and the access records live in different files: a
    successful [RecordAccess] changes neither the validity nor the contents
    of the snapshot, nor what [FindProjectsCached] returns. *)
Theorem RecordAccess_keeps_snapshot projectID projectPath w w' :
  RecordAccess json_MarshalRecords json_UnmarshalRecords projectID projectPath w = (None, w') ->
  IsCacheValid w' = IsCacheValid w /\
  LoadFromCache json_Unmarshal w' = LoadFromCache json_Unmarshal w /\
  forall rootDirs,
    FindProjectsCached toml_Decode json_Unmarshal w' rootDirs =
    FindProjectsCached toml_Decode json_Unmarshal w rootDirs.
Proof.
  unfold RecordAccess.
  destruct (LoadAccessRecords json_UnmarshalRecords w) as [before|]; [|done].
  intros Hsave.
  destruct (SaveAccessRecords_ok _ _ _ Hsave) as (accessFile & text & Ha & Ht & ->).
  assert (Hv : IsCacheValid
                 (set_files (<[accessFile:={| ModTime := now w; data := Content text |}]>
                               (files w)) w)
               = IsCacheValid w).
  { unfold IsCacheValid, os_Stat. rewrite GetCacheFile_set_files.
    destruct (GetCacheFile w) as [cacheFile|] eqn:Hc; [|done].
    cbn [files set_files]. rewrite lookup_insert_ne; [done|].
    intros <-. by eapply cache_access_paths. }
  assert (Hl : LoadFromCache json_Unmarshal
                 (set_files (<[accessFile:={| ModTime := now w; data := Content text |}]>
                               (files w)) w)
               = LoadFromCache json_Unmarshal w).
  { unfold LoadFromCache, os_ReadFile. rewrite GetCacheFile_set_files.
    destruct (GetCacheFile w) as [cacheFile|] eqn:Hc; [|done].
    cbn [mbind result_bind files set_files]. rewrite lookup_insert_ne; [done|].
    intros <-. by eapply cache_access_paths. }
  split_and!; [done|done|].
  intros rootDirs. unfold FindProjectsCached. rewrite Hv, Hl.
  unfold FindProjects. by rewrite (FindProjects_loop_trees _ _ w).
Qed.

(** X20: with a positive [limit] the result has [min limit n] elements, with
    a non-positive one all [n], where [n] is the number of discovered
    projects ([sort.Slice] rearranges in place, so it keeps the length). *)
Theorem GetRecentProjects_length limit w records homeDir projects gs :
  (forall less l, length (sort_Slice less l) = length l) ->
  LoadAccessRecords json_UnmarshalRecords w = Ok records ->
  os_UserHomeDir w = Ok homeDir ->
  FindProjectsCached toml_Decode json_Unmarshal w
    [filepath_Join homeDir "projects"; filepath_Join homeDir "scratch"] = (Ok projects, gs) ->
  exists out,
    GetRecentProjects toml_Decode json_Unmarshal json_UnmarshalRecords sort_Slice limit w
      = (Ok out, gs) /\
    Z.of_nat (length out) =
      if (0 <? limit)%Z then Z.min limit (Z.of_nat (length projects))
      else Z.of_nat (length projects).
Proof.
  intros Hlen Hrec Hhome Hfind. eexists. split.
  - unfold GetRecentProjects. by rewrite Hrec, Hhome, Hfind.
  - by rewrite applyLimit_length, Hlen.
Qed.

(** X21: a limited call returns a prefix of what the unlimited call
    returns on the same machine. *)
Theorem GetRecentProjects_prefix limit w out gs :
  GetRecentProjects toml_Decode json_Unmarshal json_UnmarshalRecords sort_Slice limit w
    = (Ok out, gs) ->
  exists full,
    GetRecentProjects toml_Decode json_Unmarshal json_UnmarshalRecords sort_Slice 0 w
      = (Ok full, gs) /\
    out `prefix_of` full.
Proof.
  unfold GetRecentProjects.
  destruct (LoadAccessRecords json_UnmarshalRecords w) as [records|]; [|done].
  destruct (os_UserHomeDir w) as [homeDir|]; [|done].
  destruct (FindProjectsCached _ _ _ _) as [[projects|] gs']; [|done].
  intros [= <- <-]. eexists. split; [done|].
  unfold applyLimit. simpl.
  destruct (_ && _); [apply prefix_take|done].
Qed.

(** X22: when at least [limit] of the discovered projects have an access
    record, a call with that positive [limit] returns [limit] projects and
    every one of them has an access record: never accessed projects are
    left out. *)
Theorem GetRecentProjects_accessed_only limit w records homeDir projects gs :
  sortsSlices sort_Slice ->
  LoadAccessRecords json_UnmarshalRecords w = Ok records ->
  os_UserHomeDir w = Ok homeDir ->
  FindProjectsCached toml_Decode json_Unmarshal w
    [filepath_Join homeDir "projects"; filepath_Join homeDir "scratch"] = (Ok projects, gs) ->
  (0 < limit <= Z.of_nat (length (List.filter (accessed records) projects)))%Z ->
  exists out,
    GetRecentProjects toml_Decode json_Unmarshal json_UnmarshalRecords sort_Slice limit w
      = (Ok out, gs) /\
    length out = Z.to_nat limit /\
    Forall (fun p => is_Some (records !! ProjectInfo.ID (ProjectInfo p))) out.
Proof.
  intros Hsort Hrec Hhome Hfind Hlim.
  destruct (Hsort (recentLess records) projects (recentLess_strictWeakOrder records))
    as [Hperm Hsorted].
  apply sortedBy_recentFirst in Hsorted.
  eexists. split; [unfold GetRecentProjects; by rewrite Hrec, Hhome, Hfind|].
  set (sorted := sort_Slice (recentLess records) projects) in *.
  assert (Hacc : length (List.filter (accessed records) sorted)
                 = length (List.filter (accessed records) projects)).
  { symmetry. by apply filter_length_Permutation. }
  assert (Hle : length (List.filter (accessed records) sorted) <= length sorted).
  { apply List.filter_length_le. }
  assert (Hout : applyLimit limit sorted = take (Z.to_nat limit) sorted).
  { unfold applyLimit.
    destruct (Z.ltb_spec 0 limit); [|lia].
    destruct (Z.ltb_spec limit (Z.of_nat (length sorted))); simpl; [done|].
    rewrite take_ge; [done|lia]. }
  rewrite Hout. split.
  - rewrite length_take. lia.
  - eapply Forall_impl; [apply (accessed_prefix records); [done|lia]|].
    intros p Hp. unfold accessed in Hp. by apply bool_decide_eq_true in Hp.
Qed.

End AccessMore.

Lemma LoadAccessRecords_missing_witness :
  LoadAccessRecords sampleUnmarshalRecords freshWorld = Ok ∅.
Proof.
  apply LoadAccessRecords_missing with accessFileName; vm_compute; reflexivity.
Defined.

Lemma RecordAccess_upsert_witness :
  exists after,
    LoadAccessRecords tableUnmarshalRecords
      (RecordAccess tableMarshalRecords tableUnmarshalRecords
         "alpha" "/home/u/projects/alpha" freshWorld).2 = Ok after /\
    after !! "alpha" =
      Some {| ProjectID := "alpha"; ProjectPath := "/home/u/projects/alpha";
              LastAccessed := now freshWorld |} /\
    (forall id, id <> "alpha" -> after !! id = (∅ : gmap string AccessRecord) !! id).
Proof.
  apply (RecordAccess_upsert tableMarshalRecords tableUnmarshalRecords
           "alpha" "/home/u/projects/alpha" freshWorld _ ∅).
  - vm_compute. reflexivity.
  - intros text.
    change (tableMarshalRecords firstAccess = Ok text ->
            tableUnmarshalRecords text = Ok firstAccess).
    assert (Hm : tableMarshalRecords firstAccess = Ok firstAccess_json)
      by (vm_compute; reflexivity).
    rewrite Hm. intros [= <-]. vm_compute. reflexivity.
  - vm_compute. reflexivity.
Defined.

Lemma RecordAccess_keeps_snapshot_witness :
  IsCacheValid
    (RecordAccess sampleMarshalRecords sampleUnmarshalRecords "gamma" "/home/u/projects/gamma"
       (cachedWorld 0 snapshot_json)).2 = IsCacheValid (cachedWorld 0 snapshot_json).
Proof.
  apply (RecordAccess_keeps_snapshot sampleDecode sampleUnmarshal
           sampleMarshalRecords sampleUnmarshalRecords "gamma" "/home/u/projects/gamma"
           (cachedWorld 0 snapshot_json)).
  vm_compute. reflexivity.
Defined.

Lemma GetRecentProjects_length_witness :
  exists out,
    (GetRecentProjects sampleDecode sampleUnmarshal sampleUnmarshalRecords
       (@insertionSort Project) 3 (cachedWorld (10 * Minute) snapshot_json)).1 = Ok out /\
    length out = 3.
Proof.
  edestruct (GetRecentProjects_length sampleDecode sampleUnmarshal sampleUnmarshalRecords
               (@insertionSort Project) 3 (cachedWorld (10 * Minute) snapshot_json)
               sampleRecords "/home/u")
    as (out & Hget & Hlen).
  - apply insertionSort_length.
  - vm_compute. reflexivity.
  - vm_compute. reflexivity.
  - vm_compute. reflexivity.
  - exists out. split; [by rewrite Hget|].
    apply Nat2Z.inj. rewrite Hlen. vm_compute. reflexivity.
Defined.

Lemma GetRecentProjects_prefix_witness :
  exists out full,
    (GetRecentProjects sampleDecode sampleUnmarshal sampleUnmarshalRecords
       (@insertionSort Project) 2 (cachedWorld (10 * Minute) snapshot_json)).1 = Ok out /\
    (GetRecentProjects sampleDecode sampleUnmarshal sampleUnmarshalRecords
       (@insertionSort Project) 0 (cachedWorld (10 * Minute) snapshot_json)).1 = Ok full /\
    out `prefix_of` full.
Proof.
  edestruct (GetRecentProjects_prefix sampleDecode sampleUnmarshal sampleUnmarshalRecords
               (@insertionSort Project) 2 (cachedWorld (10 * Minute) snapshot_json))
    as (full & Hfull & Hpre).
  - vm_compute. reflexivity.
  - eexists. exists full. split; [reflexivity|]. split; [by rewrite Hfull|]. exact Hpre.
Defined.

Lemma GetRecentProjects_accessed_only_witness :
  exists out,
    (GetRecentProjects sampleDecode sampleUnmarshal sampleUnmarshalRecords
       (@insertionSort Project) 3 (cachedWorld (10 * Minute) snapshot_json)).1 = Ok out /\
    length out = 3 /\
    Forall (fun p => is_Some (sampleRecords !! ProjectInfo.ID (ProjectInfo p))) out.
Proof.
  edestruct (GetRecentProjects_accessed_only sampleDecode sampleUnmarshal
               sampleUnmarshalRecords (@insertionSort Project) 3
               (cachedWorld (10 * Minute) snapshot_json) sampleRecords "/home/u")
    as (out & Hget & Hlen & Hall).
  - apply insertionSort_sorts.
  - vm_compute. reflexivity.
  - vm_compute. reflexivity.
  - vm_compute. reflexivity.
  - vm_compute. split; [reflexivity|discriminate].
  - exists out. split; [by rewrite Hget|]. split; [exact Hlen|exact Hall].
Defined.

(** * Filtering the project list *)

Lemma filterProjects_loop_filter filter projects filtered :
  filterProjects_loop filter projects filtered =
  filtered ++ List.filter (filterCase filter) projects.
Proof.
  revert filtered. induction projects as [|p rest IH]; intros filtered; simpl.
  - by rewrite app_nil_r.
  - rewrite IH. destruct (filterCase filter p); [|done]. by rewrite <- app_assoc.
Qed.

Lemma filterProjects_filter projects filter :
  filter <> "" -> filterProjects projects filter = List.filter (filterCase filter) projects.
Proof.
  intros Hf. unfold filterProjects.
  destruct (String.eqb_spec filter ""); [done|]. apply filterProjects_loop_filter.
Qed.

(** X23: [filterProjects] keeps the order and drops elements only; the
    empty filter keeps everything; any other filter keeps exactly the
    projects its case of the switch accepts. *)
Theorem filterProjects_selects projects filter :
  filterProjects projects filter `sublist_of` projects /\
  (filter = "" -> filterProjects projects filter = projects) /\
  (filter <> "" ->
   forall p, p ∈ filterProjects projects filter <-> p ∈ projects /\ filterCase filter p = true).
Proof.
  split_and!.
  - unfold filterProjects. destruct (String.eqb filter ""); [done|].
    rewrite filterProjects_loop_filter. simpl.
    induction projects as [|p rest IH]; simpl; [done|].
    destruct (filterCase filter p); by constructor.
  - intros ->. done.
  - intros Hf p. rewrite filterProjects_filter by done.
    rewrite !list_elem_of_In. apply filter_In.
Qed.

(** X24: a filter word the switch does not know selects nothing (it is
    neither an error nor the unfiltered list). *)
Theorem filterProjects_unknown projects filter :
  filter ∉ ["active"; "archived"; "datakai"; "westmonroe"; "product"; "client";
            "client-project"] ->
  filterProjects projects filter = if String.eqb filter "" then projects else [].
Proof.
  intros Hf. unfold filterProjects. destruct (String.eqb filter ""); [done|].
  rewrite filterProjects_loop_filter. simpl.
  assert (Hcase : forall p, filterCase filter p = false).
  { intros p. unfold filterCase.
    repeat match goal with
           | |- context [String.eqb filter ?s] =>
               destruct (String.eqb_spec filter s); [subst; exfalso; apply Hf; set_solver|]
           end.
    done. }
  induction projects as [|p rest IH]; simpl; [done|]. by rewrite Hcase.
Qed.

(** X25: filtering twice with the same word is filtering once. *)
Theorem filterProjects_idempotent projects filter :
  filterProjects (filterProjects projects filter) filter = filterProjects projects filter.
Proof.
  unfold filterProjects. destruct (String.eqb filter ""); [done|].
  rewrite !filterProjects_loop_filter. simpl.
  induction projects as [|p rest IH]; simpl; [done|].
  destruct (filterCase filter p) eqn:Hp; simpl; [|done]. by rewrite Hp, IH.
Qed.

(** X26: the words [client] and [client-project] are the same filter, and
    both select by the type [client-project]: a project whose type is
    [client] is not selected. *)
Theorem filterProjects_client projects :
  filterProjects projects "client" = filterProjects projects "client-project" /\
  forall p, p ∈ filterProjects projects "client" ->
            ProjectInfo.Type_ (ProjectInfo p) = "client-project".
Proof.
  split.
  { rewrite !filterProjects_filter by done. by apply List.filter_ext. }
  intros p Hp. rewrite filterProjects_filter in Hp by done.
  apply list_elem_of_In, filter_In in Hp as [_ Hp].
  by apply String.eqb_eq in Hp.
Qed.

(** X27: the owner filters see what [GetOwner] answers after loading: a
    loaded project is listed under [datakai] or [westmonroe] when its legacy
    primary owner, or without one its new-schema ownership, is that word. *)
Theorem filterProjects_owner_loaded p owner :
  owner = "datakai" \/ owner = "westmonroe" ->
  filterProjects [migrateSchema p] owner =
  if String.eqb
       (if nonempty (LegacyOwnership.Primary (LegacyOwnership p))
        then LegacyOwnership.Primary (LegacyOwnership p)
        else Consultant.Ownership (Consultant p))
       owner
  then [migrateSchema p] else [].
Proof.
  intros Ho.
  assert (Hg : GetOwner (migrateSchema p) =
               if nonempty (LegacyOwnership.Primary (LegacyOwnership p))
               then LegacyOwnership.Primary (LegacyOwnership p)
               else Consultant.Ownership (Consultant p)).
  { unfold GetOwner. destruct (migrateSchema_reads_only p) as (-> & _ & _).
    rewrite migrateSchema_Ownership.
    destruct (nonempty (LegacyOwnership.Primary _)) eqn:Hp; [by rewrite Hp|].
    destruct (nonempty (Consultant.Ownership _)) eqn:Hc; [done|].
    apply nonempty_false in Hp, Hc. congruence. }
  destruct Ho as [-> | ->]; unfold filterProjects; simpl; unfold filterCase; simpl;
    rewrite Hg; by destruct (String.eqb _ _).
Qed.

Lemma filterProjects_selects_witness :
  filterProjects listedProjects "" = listedProjects /\
  (forall p, p ∈ filterProjects listedProjects "active" <->
             p ∈ listedProjects /\ filterCase "active" p = true) /\
  length (filterProjects listedProjects "active") = 2.
Proof.
  destruct (filterProjects_selects listedProjects "") as (_ & H1 & _).
  destruct (filterProjects_selects listedProjects "active") as (_ & _ & H2).
  split; [apply H1; reflexivity|]. split; [apply H2; discriminate|].
  vm_compute. reflexivity.
Defined.

Lemma filterProjects_unknown_witness :
  filterProjects listedProjects "paused" = [].
Proof.
  rewrite (filterProjects_unknown listedProjects "paused"); [reflexivity|].
  intros H. apply list_elem_of_In in H. simpl in H.
  repeat destruct H as [H|H]; try discriminate H. exact H.
Defined.

Lemma filterProjects_client_witness :
  length (filterProjects listedProjects "client") = 1 /\
  Forall (fun p => ProjectInfo.Type_ (ProjectInfo p) = "client-project")
    (filterProjects listedProjects "client").
Proof.
  split; [vm_compute; reflexivity|].
  apply Forall_forall. intros p Hp.
  by apply (filterProjects_client listedProjects).
Defined.

Lemma filterProjects_owner_loaded_witness :
  filterProjects [migrateSchema (decodedIn modernDecoded)] "datakai" =
    [migrateSchema (decodedIn modernDecoded)] /\
  filterProjects [migrateSchema (decodedIn conflictDecoded)] "datakai" = [].
Proof.
  split.
  - rewrite (filterProjects_owner_loaded (decodedIn modernDecoded) "datakai");
      [reflexivity|by left].
  - rewrite (filterProjects_owner_loaded (decodedIn conflictDecoded) "datakai");
      [reflexivity|by left].
Defined.
